(** * The image manager and the product card of the storefront

    A shallow embedding of [src/components/admin/ImageManager.tsx] and
    [src/components/ProductCard.tsx].

    - JavaScript strings are [string]; the patterns the code searches for are
      ASCII, so searching bytes and searching UTF-16 code units agree.
    - [fetch] is an oracle handed to the handler; what a handler does to the
      outside world (requests, toasts, log lines, the [onChange] callback,
      state setters) is the list of effects it returns, in program order.
    - The preview component is a transition system over its React state: a
      mount, a render with a new [src] prop, the completion of a signing
      request, and the [onError] of the image tag.
    - The page is the list of previews React keeps mounted, each under the
      key of its cell; a render of the grid keeps the previews whose keys
      are still there and mounts the others. *)

From Stdlib Require Import ZArith Bool Ascii String.
From Stdlib Require Import DecimalString DecimalNat.
From stdpp Require Import base list.

Local Open Scope string_scope.

(** ** JavaScript string and value helpers *)

Module JS.

(** [s.startsWith(p)] *)
Fixpoint startsWith (s p : string) {struct p} : bool :=
  match p with
  | EmptyString => true
  | String c p' =>
      match s with
      | EmptyString => false
      | String d s' => Ascii.eqb c d && startsWith s' p'
      end
  end.

(** [s.includes(p)]: [p] starts at some position of [s]. *)
Fixpoint includes (s p : string) : bool :=
  startsWith s p ||
  match s with
  | EmptyString => false
  | String _ s' => includes s' p
  end.

(** Truthiness of a string value: only the empty string is falsy. *)
Definition truthy (s : string) : bool :=
  match s with
  | EmptyString => false
  | String _ _ => true
  end.

(** [o || d] where [o] is a string or [undefined]. *)
Definition or_else (o : option string) (d : string) : string :=
  match o with
  | Some s => if truthy s then s else d
  | None => d
  end.

(** [l.filter((x, i) => f x i)], the index counted from [i]. *)
Fixpoint filter_from {A : Type} (f : A → nat → bool) (i : nat) (l : list A) : list A :=
  match l with
  | [] => []
  | x :: l' =>
      if f x i then x :: filter_from f (S i) l' else filter_from f (S i) l'
  end.

Definition filter_indexed {A : Type} (f : A → nat → bool) (l : list A) : list A :=
  filter_from f 0 l.

End JS.

(** ** The fetch API as the handlers see it *)

Module Net.

(** A parsed JSON body, as far as the handlers read it: [null], or a value
    whose properties can be read ([undefined] when absent). *)
Record JsonObject := {
  j_error : option string;
  j_message : option string;
  j_urls : option (list string);
  j_signedUrl : option string
}.

Inductive Json :=
| JNull
| JValue (o : JsonObject).

(** [await response.json()] rejects on a body that is not JSON. *)
Inductive Body :=
| BodyInvalid
| BodyJson (j : Json).

Record Response := {
  status : Z;
  body : Body
}.

(** [response.ok]: the status is in the range 200-299. *)
Definition ok (r : Response) : bool :=
  (200 <=? status r)%Z && (status r <=? 299)%Z.

(** [await fetch(...)] rejects (network failure) or resolves to a response. *)
Inductive FetchResult :=
| FetchRejected
| FetchResolved (r : Response).

End Net.

(** ** Which tag renders an image: the test of lines 21 and 70 *)

Module Images.
Import JS.

(** [src.includes('.s3.') || src.includes('amazonaws.com')] *)
Definition isS3Url (src : string) : bool :=
  includes src ".s3." || includes src "amazonaws.com".

Inductive ImageReference :=
| LocalPath
| RemoteObjectURL.

(** The two-way branch both components take on [isS3Url]. *)
Definition classify (src : string) : ImageReference :=
  if isS3Url src then RemoteObjectURL else LocalPath.

(** The condition of [removeAt], line 90, on a defined [imageUrl]. *)
Definition isManaged (imageUrl : string) : bool :=
  truthy imageUrl &&
  (includes imageUrl ".s3." || includes imageUrl "amazonaws.com"
   || startsWith imageUrl "/uploads/").

(** What is put on the page for one image. *)
Inductive Rendered :=
| LoadingBox
| FailedBox
| ImgTag (url : string)
| NextImage (url : string).

End Images.

(** ** ImageManager.tsx *)

Module ImageManager.
Import JS Net Images.

Inductive ToastKind :=
| ToastLoading
| ToastSuccess
| ToastError.

(** What a handler does to the outside world. A toast carries the index of
    its id [delete-${idx}]. *)
Inductive Effect :=
| LogStorage (tag url : string)
| LogError (msg : string)
| Toast (kind : ToastKind) (msg : string) (idx : nat)
| FetchDelete (url : string)
| FetchUpload (files : list string)
| SetUploading (b : bool)
| OnChange (next : list string).

(** *** removeAt, lines 86-125 *)

(** The [catch] block, lines 115-118. *)
Definition delete_catch (imageUrl : string) (idx : nat) : list Effect :=
  [LogError "Error deleting image from storage";
   Toast ToastError "Error deleting image. Please try again." idx].

(** Lines 122-124. *)
Definition remove_local (images : list string) (idx : nat) : list Effect :=
  [OnChange (filter_indexed (λ _ i, negb (Nat.eqb i idx)) images)].

(** Lines 101-114, once [fetch] has resolved to [r]. Reading a property of
    [null] throws, which lands in the [catch] block like a body that does
    not parse. *)
Definition delete_response (images : list string) (idx : nat)
    (imageUrl : string) (r : Response) : list Effect :=
  match body r with
  | BodyInvalid => delete_catch imageUrl idx
  | BodyJson JNull => delete_catch imageUrl idx
  | BodyJson (JValue result) =>
      if negb (ok r) then
        [LogError "Failed to delete image from storage";
         Toast ToastError
           ("Failed to delete image: " ++ or_else (j_error result) "Unknown error")
           idx]
      else
        ([LogStorage "DELETE_SUCCESS" imageUrl;
          Toast ToastSuccess "Image deleted successfully" idx]
         ++ remove_local images idx)%list
  end.

(** [net url] is what the DELETE request for [url] comes back with. *)
Definition removeAt (images : list string) (idx : nat)
    (net : string → FetchResult) : list Effect :=
  match images !! idx with
  | Some imageUrl =>
      if isManaged imageUrl then
        ([LogStorage "DELETE_ATTEMPT" imageUrl;
          Toast ToastLoading "Deleting image..." idx;
          FetchDelete imageUrl]
         ++ match net imageUrl with
            | FetchRejected => delete_catch imageUrl idx
            | FetchResolved r => delete_response images idx imageUrl r
            end)%list
      else remove_local images idx
  | None => remove_local images idx
  end.

(** The effects that are network requests, and the lists handed to the
    caller, in order. *)
Definition is_request (e : Effect) : bool :=
  match e with
  | FetchDelete _ | FetchUpload _ => true
  | _ => false
  end.

Fixpoint requests (es : list Effect) : list Effect :=
  match es with
  | [] => []
  | e :: es' => if is_request e then e :: requests es' else requests es'
  end.

Fixpoint handed_back (es : list Effect) : list (list string) :=
  match es with
  | [] => []
  | OnChange next :: es' => next :: handed_back es'
  | _ :: es' => handed_back es'
  end.

(** *** onFiles, lines 128-143 *)

(** How an async handler ends. *)
Inductive Completion :=
| Returned
| Threw.

(** [files] is [None] for [null]; a file is named by a string. [net] is what
    the POST comes back with. The [finally] block runs on every path that
    entered the [try]. *)
Definition onFiles (images : list string) (files : option (list string))
    (net : list string → FetchResult) : list Effect * Completion :=
  match files with
  | None => ([], Returned)
  | Some [] => ([], Returned)
  | Some fs =>
      match net fs with
      | FetchRejected =>
          ([SetUploading true; FetchUpload fs; SetUploading false], Threw)
      | FetchResolved res =>
          if ok res then
            match body res with
            | BodyInvalid | BodyJson JNull =>
                ([SetUploading true; FetchUpload fs; SetUploading false], Threw)
            | BodyJson (JValue data) =>
                let urls := default [] (j_urls data) in
                ([SetUploading true; FetchUpload fs;
                  OnChange (images ++ urls)%list; SetUploading false], Returned)
            end
          else ([SetUploading true; FetchUpload fs; SetUploading false], Returned)
      end
  end.

(** *** ImagePreview, lines 15-81 *)

(** The component's props and state, and the signing requests in flight
    (each named by the [url] of its body), with the log of all requests
    issued so far. *)
Record Preview := {
  src : string;
  signedUrl : string;
  loading : bool;
  error : bool;
  pending : list string;
  issued : list string
}.

(** The effect of lines 23-51, run after a render in which [src] is new. *)
Definition run_effect (p : Preview) : Preview :=
  if isS3Url (src p) then
    {| src := src p; signedUrl := signedUrl p;
       loading := true; error := false;
       pending := (pending p ++ [src p])%list;
       issued := (issued p ++ [src p])%list |}
  else p.

(** First render: [useState(src)], then the effect. *)
Definition mount (s : string) : Preview :=
  run_effect {| src := s; signedUrl := s; loading := false; error := false;
                pending := []; issued := [] |}.

(** Lines 53-73. *)
Definition render (p : Preview) : Rendered :=
  if loading p then LoadingBox
  else if error p then FailedBox
  else if isS3Url (src p) then ImgTag (signedUrl p)
  else NextImage (src p).

(** The [.catch] handler, lines 45-49. *)
Definition sign_failed (p : Preview) : Preview :=
  {| src := src p; signedUrl := signedUrl p; loading := false; error := true;
     pending := pending p; issued := issued p |}.

(** The [.then] chain of lines 36-44 on a settled request. The handlers read
    neither [response.ok] nor the reference the request was issued for. *)
Definition settle (fr : FetchResult) (p : Preview) : Preview :=
  match fr with
  | FetchRejected => sign_failed p
  | FetchResolved r =>
      match body r with
      | BodyInvalid | BodyJson JNull => sign_failed p
      | BodyJson (JValue data) =>
          match j_signedUrl data with
          | Some u =>
              if truthy u then
                {| src := src p; signedUrl := u; loading := false;
                   error := error p; pending := pending p; issued := issued p |}
              else sign_failed p
          | None => sign_failed p
          end
      end
  end.

(** Removes the oldest request for [url] from those in flight. *)
Fixpoint take_request (url : string) (l : list string) : option (list string) :=
  match l with
  | [] => None
  | u :: l' =>
      if String.eqb u url then Some l'
      else option_map (cons u) (take_request url l')
  end.

Inductive Event :=
| Rerender (newSrc : string)
| Settled (url : string) (fr : FetchResult)
| ImgError.

(** One event. [None]: the event cannot happen in this state (no such
    request in flight, no image tag on the page). *)
Definition step (p : Preview) (e : Event) : option Preview :=
  match e with
  | Rerender s =>
      if String.eqb s (src p) then Some p
      else Some (run_effect {| src := s; signedUrl := signedUrl p;
                               loading := loading p; error := error p;
                               pending := pending p; issued := issued p |})
  | Settled url fr =>
      match take_request url (pending p) with
      | Some rest =>
          Some (settle fr {| src := src p; signedUrl := signedUrl p;
                             loading := loading p; error := error p;
                             pending := rest; issued := issued p |})
      | None => None
      end
  | ImgError =>
      match render p with
      | ImgTag _ =>
          Some {| src := src p; signedUrl := signedUrl p; loading := loading p;
                  error := true; pending := pending p; issued := issued p |}
      | _ => None
      end
  end.

Fixpoint run (p : Preview) (es : list Event) : option Preview :=
  match es with
  | [] => Some p
  | e :: es' =>
      match step p e with
      | Some p' => run p' es'
      | None => None
      end
  end.

(** An event that keeps the held reference off object storage. *)
Definition keeps_local (e : Event) : bool :=
  match e with
  | Rerender s => negb (isS3Url s)
  | _ => true
  end.

(** An event that keeps the held reference as it is. *)
Definition keeps_src (s : string) (e : Event) : bool :=
  match e with
  | Rerender s' => String.eqb s' s
  | _ => true
  end.

(** A preview that holds a local reference, waits for nothing and shows no
    box: the states a local reference stays in. *)
Definition settled_local (p : Preview) : Prop :=
  isS3Url (src p) = false ∧ loading p = false ∧ error p = false ∧
  pending p = [] ∧ issued p = [].

(** The sign collaborator's answer [{signedUrl: u}] under status 200. *)
Definition signed_response (u : string) : FetchResult :=
  FetchResolved
    {| status := 200;
       body := BodyJson (JValue {| j_error := None; j_message := None;
                                   j_urls := None; j_signedUrl := Some u |}) |}.

End ImageManager.

(** ** ProductCard.tsx *)

Module ProductCard.
Import JS Images.

(** A price is a number of minor currency units. *)
Record ProductVariant := {
  id : string;
  unit : string;
  amount : Z;
  price : Z;
  stock : Z
}.

Record Product := {
  name : string;
  slug : string;
  images : list string;
  variants : list ProductVariant
}.

(** Line 33: [product.images[0] || '/placeholder-product.jpg'] *)
Definition imageUrl (p : Product) : string :=
  or_else (images p !! 0%nat) "/placeholder-product.jpg".

(** Lines 70-86. *)
Definition cardImage (p : Product) : Rendered :=
  if includes (imageUrl p) ".s3." || includes (imageUrl p) "amazonaws.com"
  then ImgTag (imageUrl p)
  else NextImage (imageUrl p).

Definition hasVariants (vs : list ProductVariant) : bool :=
  match vs with
  | [] => false
  | _ :: _ => true
  end.

(** Lines 39-41: [variants[0]?.id || null], [None] for [null]. *)
Definition initialSelectedVariantId (vs : list ProductVariant) : option string :=
  match vs with
  | v :: _ => if truthy (id v) then Some (id v) else None
  | [] => None
  end.

(** [v.id === selectedVariantId]: no id is identical to [null]. *)
Definition id_is (selectedVariantId : option string) (v : ProductVariant) : bool :=
  match selectedVariantId with
  | Some s => String.eqb (id v) s
  | None => false
  end.

(** [variants.find(f)] *)
Fixpoint find_variant (f : ProductVariant → bool) (vs : list ProductVariant)
    : option ProductVariant :=
  match vs with
  | [] => None
  | v :: vs' => if f v then Some v else find_variant f vs'
  end.

(** Lines 43-46: a variant found by [find] is an object, hence truthy, and
    [|| variants[0]] applies when none is found. *)
Definition selectedVariant (vs : list ProductVariant)
    (selectedVariantId : option string) : option ProductVariant :=
  if hasVariants vs then
    match find_variant (id_is selectedVariantId) vs with
    | Some v => Some v
    | None => vs !! 0%nat
    end
  else None.

(** Lines 48-49; [Math.min] and [Math.max] are applied to a list that is not
    empty. *)
Definition minPrice (vs : list ProductVariant) : Z :=
  match vs with
  | [] => 0
  | v :: vs' => fold_left Z.min (map price vs') (price v)
  end.

Definition maxPrice (vs : list ProductVariant) : Z :=
  match vs with
  | [] => 0
  | v :: vs' => fold_left Z.max (map price vs') (price v)
  end.

(** What the price element shows; each number is an argument of
    [formatPrice]. *)
Inductive PriceDisplay :=
| PriceNotAvailable
| PriceOf (p : Z)
| PriceRange (lo hi : Z).

(** Lines 115-123. *)
Definition displayedPrice (vs : list ProductVariant)
    (selectedVariantId : option string) : PriceDisplay :=
  if negb (hasVariants vs) then PriceNotAvailable
  else
    match selectedVariant vs selectedVariantId with
    | Some v => PriceOf (price v)
    | None =>
        if (minPrice vs =? maxPrice vs)%Z then PriceOf (minPrice vs)
        else PriceRange (minPrice vs) (maxPrice vs)
    end.

End ProductCard.

(** ** ImageManager.tsx: the notifications and the grid of previews *)

Module ImageManagerView.
Import JS Net Images ImageManager.

(** The toasts among the effects, each with its kind and the index of its
    id: a later toast with the same id replaces the earlier one. *)
Fixpoint toasts (es : list Effect) : list (ToastKind * nat) :=
  match es with
  | [] => []
  | Toast k _ i :: es' => (k, i) :: toasts es'
  | _ :: es' => toasts es'
  end.

(** [String(i)] for an array index: its decimal digits. *)
Definition decimal (i : nat) : string :=
  NilEmpty.string_of_uint (Nat.to_uint i).

(** Line 149: the key [`${src}-${i}`]. *)
Definition preview_key (src : string) (i : nat) : string :=
  src ++ "-" ++ decimal i.

(** One cell of the grid, lines 148-156: its key, the reference its preview
    is given, and the index its remove button passes to [removeAt]. *)
Record Cell := {
  cell_key : string;
  cell_src : string;
  cell_remove : nat
}.

(** [images.map((src, i) => ...)], the index counted from [i]. *)
Fixpoint grid_from (i : nat) (images : list string) : list Cell :=
  match images with
  | [] => []
  | src :: images' =>
      {| cell_key := preview_key src i; cell_src := src; cell_remove := i |}
      :: grid_from (S i) images'
  end.

Definition grid (images : list string) : list Cell := grid_from 0 images.

(** A string without the character [-]. *)
Fixpoint dash_free (s : string) : bool :=
  match s with
  | EmptyString => true
  | String c s' => negb (Ascii.eqb c "-") && dash_free s'
  end.

End ImageManagerView.

(** ** ProductCard.tsx: the variant buttons and the actions *)

Module ProductCardView.
Import JS Images ProductCard.

(** Lines 92-111: one button per variant when there is more than one; a
    button carries its variant's id, which a click stores as the selected
    id, and is highlighted when [selectedVariant?.id === variant.id]. *)
Record VariantButton := {
  button_id : string;
  highlighted : bool
}.

Definition is_highlighted (selected : option ProductVariant)
    (v : ProductVariant) : bool :=
  match selected with
  | Some w => String.eqb (id w) (id v)
  | None => false
  end.

Definition variantButtons (vs : list ProductVariant)
    (selectedVariantId : option string) : list VariantButton :=
  if hasVariants vs && Nat.ltb 1 (length vs) then
    map (λ v, {| button_id := id v;
                 highlighted :=
                   is_highlighted (selectedVariant vs selectedVariantId) v |})
        vs
  else [].

(** The click handler of lines 97-100. *)
Definition clickVariant (v : ProductVariant) : option string := Some (id v).

(** The props of the add-to-cart button, lines 126-134. *)
Record CartProps := {
  cart_productId : string;
  cart_variantId : string;
  cart_productName : string;
  cart_variantUnit : string;
  cart_variantAmount : Z;
  cart_price : Z;
  cart_imageUrl : option string
}.

(** Lines 125-138: the button is there when a variant is selected.
    [productId] is the product's id. *)
Definition addToCartButton (productId : string) (p : Product)
    (selectedVariantId : option string) : option CartProps :=
  match selectedVariant (variants p) selectedVariantId with
  | Some v =>
      Some {| cart_productId := productId;
              cart_variantId := id v;
              cart_productName := name p;
              cart_variantUnit := unit v;
              cart_variantAmount := amount v;
              cart_price := price v;
              cart_imageUrl := images p !! 0%nat |}
  | None => None
  end.

(** Lines 139-145: the link to the product page, there when the product has
    no variants. *)
Definition viewDetailsLink (p : Product) : option string :=
  if negb (hasVariants (variants p)) then Some ("/products/" ++ slug p)
  else None.

End ProductCardView.

(** ** ImageManager.tsx: the previews React keeps on the page *)

Module ImageManagerPage.
Import JS Net Images ImageManager ImageManagerView.

(** A preview on the page, under the key of its cell (line 149). React keeps
    the state of a child from one render of the grid to the next when its
    key is still there, mounts a child whose key is new, and unmounts a
    child whose key is gone. [m_answered] logs the urls of the signing
    requests whose results have been applied to this preview's state. *)
Record Mounted := {
  m_key : string;
  m_preview : Preview;
  m_answered : list string
}.

Fixpoint find_mounted (k : string) (page : list Mounted) : option Mounted :=
  match page with
  | [] => None
  | m :: page' =>
      if String.eqb (m_key m) k then Some m else find_mounted k page'
  end.

(** One cell of a new render of the grid: the preview kept under the cell's
    key is rendered again with the cell's reference, and a cell whose key is
    not on the page gets a preview mounted on its reference. *)
Definition reconcile (page : list Mounted) (c : Cell) : Mounted :=
  match find_mounted (cell_key c) page with
  | Some m =>
      {| m_key := cell_key c;
         m_preview :=
           match step (m_preview m) (Rerender (cell_src c)) with
           | Some q => q
           | None => m_preview m
           end;
         m_answered := m_answered m |}
  | None =>
      {| m_key := cell_key c;
         m_preview := mount (cell_src c);
         m_answered := [] |}
  end.

(** [ImageManager] rendered with [images], lines 148-156. *)
Definition render_page (page : list Mounted) (images : list string)
    : list Mounted :=
  map (reconcile page) (grid images).

(** A state update addressed to the preview under key [k]; it is dropped
    when no such preview is mounted. *)
Fixpoint update_mounted (k : string) (f : Mounted → Mounted)
    (page : list Mounted) : list Mounted :=
  match page with
  | [] => []
  | m :: page' =>
      if String.eqb (m_key m) k then f m :: page'
      else m :: update_mounted k f page'
  end.

Definition settle_at (url : string) (fr : FetchResult) (m : Mounted) : Mounted :=
  match step (m_preview m) (Settled url fr) with
  | Some q =>
      {| m_key := m_key m; m_preview := q;
         m_answered := (m_answered m ++ [url])%list |}
  | None => m
  end.

Definition img_error_at (m : Mounted) : Mounted :=
  match step (m_preview m) ImgError with
  | Some q =>
      {| m_key := m_key m; m_preview := q; m_answered := m_answered m |}
  | None => m
  end.

Inductive PageEvent :=
| Render (images : list string)
| SettledAt (key url : string) (fr : FetchResult)
| ImgErrorAt (key : string).

Definition page_step (page : list Mounted) (e : PageEvent) : list Mounted :=
  match e with
  | Render images => render_page page images
  | SettledAt k url fr => update_mounted k (settle_at url fr) page
  | ImgErrorAt k => update_mounted k img_error_at page
  end.

(** The page after a sequence of events. *)
Definition page_run (page : list Mounted) (es : list PageEvent)
    : list Mounted :=
  fold_left page_step es page.

(** A mounted preview that has only ever dealt with the reference it
    holds: its key is built from that reference, and the requests it has
    issued, those in flight and those whose results it has applied are all
    for that reference. *)
Definition holds_own_reference (m : Mounted) : Prop :=
  (∃ i, m_key m = preview_key (src (m_preview m)) i) ∧
  Forall (λ u, u = src (m_preview m)) (issued (m_preview m)) ∧
  Forall (λ u, u = src (m_preview m)) (pending (m_preview m)) ∧
  Forall (λ u, u = src (m_preview m)) (m_answered m).

End ImageManagerPage.

(** * Properties *)

(** ** References and their classification *)

Section Classification.
Import JS Images.

(** The local prefix holds no start of an object-storage pattern, so a
    pattern inside ["/uploads/" ++ t] lies inside [t]. *)
Lemma isS3Url_uploads (t : string) :
  isS3Url ("/uploads/" ++ t) = isS3Url t.
Proof. unfold isS3Url. cbn. reflexivity. Qed.

Lemma startsWith_uploads (t : string) :
  startsWith ("/uploads/" ++ t) "/uploads/" = true.
Proof. reflexivity. Qed.

Lemma startsWith_app (p t : string) : startsWith (p ++ t) p = true.
Proof.
  induction p as [|c p IH]; [reflexivity|].
  cbn. rewrite Ascii.eqb_refl. exact IH.
Qed.

Lemma startsWith_split (s p : string) :
  startsWith s p = true → ∃ t, s = p ++ t.
Proof.
  revert s. induction p as [|c p IH]; intros s H.
  - exists s. reflexivity.
  - destruct s as [|d s]; [discriminate|].
    cbn in H. apply andb_prop in H as [Hc Hp].
    apply Ascii.eqb_eq in Hc. subst d.
    destruct (IH _ Hp) as [t ->]. exists t. reflexivity.
Qed.

End Classification.

Section ClassificationClaims.
Import JS Images.

(** C3, as stated, fails: a reference under the local prefix whose file name
    holds [.s3.] matches the object-storage pattern and begins with
    [/uploads/]. *)
Lemma reference_matching_both :
  isS3Url "/uploads/shop.s3.backup.jpg" = true ∧
  startsWith "/uploads/shop.s3.backup.jpg" "/uploads/" = true ∧
  classify "/uploads/shop.s3.backup.jpg" = RemoteObjectURL.
Proof. repeat split; reflexivity. Qed.

(** C3, amended: the class of a reference is a function of the string and
    follows the object-storage pattern alone, which is tested first. The
    local prefix does not exclude the pattern: [/uploads/] followed by [t]
    is classified as [t] is, and every reference that begins with
    [/uploads/] is subject to storage deletion whatever its class. *)
Theorem classify_by_pattern_alone (s t : string) :
  classify s =
    (if includes s ".s3." || includes s "amazonaws.com"
     then RemoteObjectURL else LocalPath) ∧
  classify ("/uploads/" ++ t) = classify t ∧
  isManaged ("/uploads/" ++ t) = true.
Proof.
  split; [reflexivity|]. split.
  - unfold classify. rewrite isS3Url_uploads. reflexivity.
  - unfold isManaged. rewrite startsWith_uploads.
    rewrite !orb_true_r. reflexivity.
Qed.

End ClassificationClaims.

(** ** The product card's image *)

Section CardImage.
Import JS Images ProductCard.

(** C9: a product with no images shows the fixed placeholder, through the
    direct rendering branch. *)
Theorem no_images_placeholder (p : Product) :
  images p = [] →
  imageUrl p = "/placeholder-product.jpg" ∧
  isS3Url (imageUrl p) = false ∧
  cardImage p = NextImage "/placeholder-product.jpg".
Proof.
  intros H. unfold cardImage, imageUrl. rewrite H. cbn.
  repeat split; reflexivity.
Qed.

Lemma no_images_placeholder_witness :
  cardImage {| name := "Rice"; slug := "rice"; images := []; variants := [] |}
  = NextImage "/placeholder-product.jpg".
Proof.
  apply (no_images_placeholder
           {| name := "Rice"; slug := "rice"; images := []; variants := [] |}).
  reflexivity.
Defined.

End CardImage.

(** ** Removing an image *)

Section RemoveAt.
Import JS Net Images ImageManager.

(** Filtering on [i !== idx] from an index past [idx] keeps everything. *)
Lemma filter_from_past {A : Type} (idx : nat) (l : list A) (k : nat) :
  idx < k → filter_from (λ _ i, negb (Nat.eqb i idx)) k l = l.
Proof.
  revert k. induction l as [|x l IH]; intros k Hk; [reflexivity|].
  cbn. destruct (Nat.eqb_spec k idx) as [->|_]; [lia|].
  cbn. f_equal. apply IH. lia.
Qed.

(** Filtering on [i !== idx] drops the element at position [idx] and
    nothing else. *)
Lemma filter_from_upto {A : Type} (idx : nat) (l : list A) (k : nat) :
  k ≤ idx →
  filter_from (λ _ i, negb (Nat.eqb i idx)) k l
  = (take (idx - k) l ++ drop (S (idx - k)) l)%list.
Proof.
  revert k. induction l as [|x l IH]; intros k Hk.
  - cbn. rewrite take_nil. reflexivity.
  - cbn [filter_from]. destruct (Nat.eqb_spec k idx) as [->|Hne]; cbn [negb].
    + rewrite Nat.sub_diag. cbn. apply filter_from_past. lia.
    + replace (idx - k) with (S (idx - S k)) by lia.
      cbn. f_equal. apply IH. lia.
Qed.

Lemma filter_indexed_remove (idx : nat) (l : list string) :
  filter_indexed (λ _ i, negb (Nat.eqb i idx)) l
  = (take idx l ++ drop (S idx) l)%list.
Proof.
  unfold filter_indexed. rewrite filter_from_upto by lia.
  rewrite Nat.sub_0_r. reflexivity.
Qed.

Lemma remove_out_of_range (idx : nat) (l : list string) :
  length l ≤ idx → (take idx l ++ drop (S idx) l)%list = l.
Proof.
  intros H. rewrite take_ge by lia. rewrite drop_ge by lia.
  apply app_nil_r.
Qed.

Lemma isManaged_false (url : string) :
  includes url ".s3." = false →
  includes url "amazonaws.com" = false →
  startsWith url "/uploads/" = false →
  isManaged url = false.
Proof.
  intros H1 H2 H3. unfold isManaged. rewrite H1, H2, H3.
  apply andb_false_r.
Qed.

End RemoveAt.

Section RemoveAtClaims.
Import JS Net Images ImageManager.

(** C4, as stated, fails: a body that carries [error] under a 2xx status is
    not a failed deletion for the code, which reads [response.ok] only; the
    reference is removed and the shortened list handed to the caller. *)
Lemma error_body_under_2xx_removes :
  isManaged "/uploads/a.jpg" = true ∧
  handed_back
    (removeAt ["/uploads/a.jpg"] 0
       (λ _, FetchResolved
               {| status := 200;
                  body := BodyJson (JValue {| j_error := Some "not found";
                                              j_message := None;
                                              j_urls := None;
                                              j_signedUrl := None |}) |}))
  = [[]].
Proof. split; reflexivity. Qed.

(** C4, amended: for a managed reference, when the delete request comes back
    with a status outside 200-299 (whatever the body says), or an exception
    occurs (the request is rejected, the body does not parse, or it parses
    to [null]), no list is handed to the caller; the one request issued is
    the delete request for that reference. *)
Theorem failed_deletion_keeps_list (images : list string) (idx : nat)
    (net : string → FetchResult) (url : string) :
  images !! idx = Some url →
  isManaged url = true →
  (net url = FetchRejected ∨
   ∃ r, net url = FetchResolved r ∧
        (ok r = false ∨ body r = BodyInvalid ∨ body r = BodyJson JNull)) →
  handed_back (removeAt images idx net) = [] ∧
  requests (removeAt images idx net) = [FetchDelete url].
Proof.
  intros Hat Hm Hfail. unfold removeAt. rewrite Hat, Hm.
  destruct Hfail as [-> | (r & -> & Hr)]; [split; reflexivity|].
  unfold delete_response.
  destruct Hr as [Hok | [-> | ->]]; [|split; reflexivity..].
  rewrite Hok. destruct (body r) as [|[|result]]; split; reflexivity.
Qed.

Lemma failed_deletion_keeps_list_witness :
  handed_back
    (removeAt ["/uploads/a.jpg"; "/uploads/b.jpg"] 1
       (λ _, FetchResolved
               {| status := 404;
                  body := BodyJson (JValue {| j_error := Some "not found";
                                              j_message := None;
                                              j_urls := None;
                                              j_signedUrl := None |}) |}))
  = [].
Proof.
  eapply proj1.
  apply (failed_deletion_keeps_list _ 1 _ "/uploads/b.jpg");
    [reflexivity | reflexivity |].
  right. eexists. split; [reflexivity|]. left. reflexivity.
Defined.

(** C5, as stated, fails: a 2xx response whose body does not parse (a 204
    with no content) ends in the [catch] block and nothing is handed back. *)
Lemma no_content_2xx_keeps_list :
  ok {| status := 204; body := BodyInvalid |} = true ∧
  handed_back
    (removeAt ["/uploads/a.jpg"] 0
       (λ _, FetchResolved {| status := 204; body := BodyInvalid |}))
  = [].
Proof. split; reflexivity. Qed.

(** C5, amended: for every list and valid index, when the delete request for
    the reference at that index comes back with a 2xx status and a body that
    parses to a JSON value other than [null], exactly one list is handed
    back: the input without the element at that index, the others in their
    order. *)
Theorem accepted_deletion_removes (images : list string) (idx : nat)
    (net : string → FetchResult) (url : string) (r : Response)
    (result : JsonObject) :
  images !! idx = Some url →
  net url = FetchResolved r →
  ok r = true →
  body r = BodyJson (JValue result) →
  handed_back (removeAt images idx net)
  = [(take idx images ++ drop (S idx) images)%list].
Proof.
  intros Hat Hnet Hok Hbody. unfold removeAt. rewrite Hat.
  destruct (isManaged url).
  - rewrite Hnet. unfold delete_response. rewrite Hbody, Hok. cbn.
    rewrite filter_indexed_remove. reflexivity.
  - cbn. rewrite filter_indexed_remove. reflexivity.
Qed.

Lemma accepted_deletion_removes_witness :
  handed_back
    (removeAt ["/uploads/a.jpg"; "https://shop.s3.amazonaws.com/b.jpg";
               "/uploads/c.jpg"] 1
       (λ _, FetchResolved
               {| status := 200;
                  body := BodyJson (JValue {| j_error := None;
                                              j_message := Some "deleted";
                                              j_urls := None;
                                              j_signedUrl := None |}) |}))
  = [["/uploads/a.jpg"; "/uploads/c.jpg"]].
Proof.
  exact (accepted_deletion_removes
           ["/uploads/a.jpg"; "https://shop.s3.amazonaws.com/b.jpg";
            "/uploads/c.jpg"] 1 _
           "https://shop.s3.amazonaws.com/b.jpg"
           {| status := 200;
              body := BodyJson (JValue {| j_error := None;
                                          j_message := Some "deleted";
                                          j_urls := None;
                                          j_signedUrl := None |}) |}
           {| j_error := None; j_message := Some "deleted";
              j_urls := None; j_signedUrl := None |}
           eq_refl eq_refl eq_refl eq_refl).
Defined.

(** C7: a reference that neither matches the object-storage pattern nor
    begins with [/uploads/] is removed at once: the handler issues no
    request and does nothing but hand back the list without that element. *)
Theorem unmanaged_removed_directly (images : list string) (idx : nat)
    (net : string → FetchResult) (url : string) :
  images !! idx = Some url →
  includes url ".s3." = false →
  includes url "amazonaws.com" = false →
  startsWith url "/uploads/" = false →
  removeAt images idx net
  = [OnChange (take idx images ++ drop (S idx) images)%list] ∧
  requests (removeAt images idx net) = [].
Proof.
  intros Hat H1 H2 H3. unfold removeAt.
  rewrite Hat, (isManaged_false url H1 H2 H3).
  unfold remove_local. rewrite filter_indexed_remove. split; reflexivity.
Qed.

Lemma unmanaged_removed_directly_witness :
  removeAt ["https://cdn.example.com/a.jpg"; "/uploads/b.jpg"] 0
    (λ _, FetchRejected)
  = [OnChange ["/uploads/b.jpg"]].
Proof.
  exact (proj1 (unmanaged_removed_directly
                  ["https://cdn.example.com/a.jpg"; "/uploads/b.jpg"] 0 _
                  "https://cdn.example.com/a.jpg"
                  eq_refl eq_refl eq_refl eq_refl)).
Defined.

(** C10: at an index past the end of the list the handler issues no request
    and hands back a list equal to the input. *)
Theorem out_of_range_keeps_all (images : list string) (idx : nat)
    (net : string → FetchResult) :
  length images ≤ idx →
  removeAt images idx net = [OnChange images] ∧
  requests (removeAt images idx net) = [].
Proof.
  intros H. unfold removeAt.
  rewrite (lookup_ge_None_2 images idx H).
  unfold remove_local. rewrite filter_indexed_remove.
  rewrite remove_out_of_range by exact H. split; reflexivity.
Qed.

Lemma out_of_range_keeps_all_witness :
  removeAt ["/uploads/a.jpg"] 3 (λ _, FetchRejected)
  = [OnChange ["/uploads/a.jpg"]].
Proof.
  apply (out_of_range_keeps_all ["/uploads/a.jpg"] 3). cbn. lia.
Defined.

End RemoveAtClaims.

(** ** Uploading images *)

Section OnFiles.
Import JS Net Images ImageManager.

(** C8: after an upload that comes back with a 2xx status and a [urls]
    array, exactly one list is handed to the caller: the input list followed
    by the returned URLs. Its first [length images] entries are the input
    list, and the new entries are what follows them. *)
Theorem upload_appends (images : list string) (f : string) (fs : list string)
    (net : list string → FetchResult) (res : Response) (data : JsonObject)
    (urls : list string) :
  net (f :: fs) = FetchResolved res →
  ok res = true →
  body res = BodyJson (JValue data) →
  j_urls data = Some urls →
  ∃ next,
    handed_back (fst (onFiles images (Some (f :: fs)) net)) = [next] ∧
    snd (onFiles images (Some (f :: fs)) net) = Returned ∧
    next = (images ++ urls)%list ∧
    take (length images) next = images ∧
    drop (length images) next = urls.
Proof.
  intros Hnet Hok Hbody Hurls. exists (images ++ urls)%list.
  unfold onFiles. rewrite Hnet, Hok, Hbody, Hurls. cbn.
  repeat split.
  - apply take_app_length.
  - apply drop_app_length.
Qed.

Lemma upload_appends_witness :
  ∃ next,
    handed_back
      (fst (onFiles ["/uploads/a.jpg"] (Some ["b.png"; "c.png"])
              (λ _, FetchResolved
                      {| status := 201;
                         body := BodyJson
                                   (JValue {| j_error := None;
                                              j_message := None;
                                              j_urls := Some ["/uploads/b.png";
                                                              "/uploads/c.png"];
                                              j_signedUrl := None |}) |})))
    = [next] ∧
    next = ["/uploads/a.jpg"; "/uploads/b.png"; "/uploads/c.png"].
Proof.
  destruct (upload_appends ["/uploads/a.jpg"] "b.png" ["c.png"]
              (λ _, FetchResolved
                      {| status := 201;
                         body := BodyJson
                                   (JValue {| j_error := None;
                                              j_message := None;
                                              j_urls := Some ["/uploads/b.png";
                                                              "/uploads/c.png"];
                                              j_signedUrl := None |}) |})
              _ _ ["/uploads/b.png"; "/uploads/c.png"]
              eq_refl eq_refl eq_refl eq_refl)
    as (next & H1 & _ & H2 & _).
  exists next. split; [exact H1 | exact H2].
Defined.

End OnFiles.

(** ** The preview of one image *)

Section Preview.
Import JS Net Images ImageManager.

Lemma mount_local (s : string) :
  isS3Url s = false →
  mount s = {| src := s; signedUrl := s; loading := false; error := false;
               pending := []; issued := [] |}.
Proof. intros H. unfold mount, run_effect. cbn. rewrite H. reflexivity. Qed.

Lemma settled_local_render (p : Preview) :
  settled_local p → render p = NextImage (src p).
Proof.
  intros (Hs & Hl & He & _ & _). unfold render. rewrite Hl, He, Hs.
  reflexivity.
Qed.

Lemma settled_local_step (p p' : Preview) (e : Event) :
  settled_local p → keeps_local e = true → step p e = Some p' →
  settled_local p'.
Proof.
  intros Hp Hk Hstep. pose proof (settled_local_render p Hp) as Hr.
  destruct Hp as (Hs & Hl & He & Hpend & Hiss).
  destruct e as [s | url fr |]; cbn in Hstep.
  - cbn in Hk. apply negb_true_iff in Hk.
    destruct (String.eqb s (src p)).
    + injection Hstep as <-. repeat split; assumption.
    + unfold run_effect in Hstep. cbn in Hstep. rewrite Hk in Hstep.
      injection Hstep as <-. repeat split; assumption.
  - rewrite Hpend in Hstep. discriminate.
  - rewrite Hr in Hstep. discriminate.
Qed.

Lemma settled_local_run (es : list Event) (p p' : Preview) :
  settled_local p → forallb keeps_local es = true → run p es = Some p' →
  settled_local p'.
Proof.
  revert p. induction es as [|e es IH]; intros p Hp Hk Hrun; cbn in Hrun.
  - injection Hrun as <-. exact Hp.
  - cbn in Hk. apply andb_prop in Hk as [Hke Hkes].
    destruct (step p e) as [p1|] eqn:Hstep; [|discriminate].
    apply (IH p1); [|assumption..].
    exact (settled_local_step p p1 e Hp Hke Hstep).
Qed.

(** Taking a request out of those in flight is not disturbed by a later
    request. *)
Lemma take_request_app (url : string) (l rest more : list string) :
  take_request url l = Some rest →
  take_request url (l ++ more) = Some (rest ++ more)%list.
Proof.
  revert rest. induction l as [|u l IH]; intros rest H; [discriminate|].
  cbn in *. destruct (String.eqb u url).
  - injection H as <-. reflexivity.
  - destruct (take_request url l) as [r|]; [|discriminate].
    injection H as <-. rewrite (IH r eq_refl). reflexivity.
Qed.

End Preview.

Section PreviewClaims.
Import JS Net Images ImageManager.

(** C6: a preview mounted on a reference that does not match the
    object-storage pattern issues no request and renders the reference
    itself at once; as long as the references it is given stay of that kind
    it is never loading and never failed, and no request is ever issued. *)
Theorem local_reference_direct (s : string) (es : list Event) (p : Preview) :
  isS3Url s = false →
  forallb keeps_local es = true →
  run (mount s) es = Some p →
  issued (mount s) = [] ∧ render (mount s) = NextImage s ∧
  issued p = [] ∧ pending p = [] ∧ loading p = false ∧ error p = false ∧
  render p = NextImage (src p).
Proof.
  intros Hs Hk Hrun.
  assert (settled_local (mount s)) as H0.
  { rewrite (mount_local s Hs). repeat split; [exact Hs|reflexivity..]. }
  pose proof (settled_local_run es (mount s) p H0 Hk Hrun) as Hp.
  pose proof (settled_local_render _ H0) as Hr0.
  pose proof (settled_local_render _ Hp) as Hr.
  destruct H0 as (_ & _ & _ & _ & Hi0).
  destruct Hp as (_ & Hl & He & Hpend & Hiss).
  replace (src (mount s)) with s in Hr0
    by (rewrite (mount_local s Hs); reflexivity).
  repeat split; assumption.
Qed.

Lemma local_reference_direct_witness :
  render (mount "/uploads/a.jpg") = NextImage "/uploads/a.jpg".
Proof.
  exact (proj1 (proj2 (local_reference_direct "/uploads/a.jpg"
                         [Rerender "/uploads/b.jpg"]
                         {| src := "/uploads/b.jpg";
                            signedUrl := "/uploads/a.jpg";
                            loading := false; error := false;
                            pending := []; issued := [] |}
                         eq_refl eq_refl eq_refl))).
Defined.

(** The component taken alone keeps no association between a request and
    the reference it was issued for: were a mounted preview given another
    object-storage reference while an earlier request is in flight, it
    would issue a request for the new reference and, when the earlier one
    comes back with a signed URL, store that URL and show it. The grid never
    does this to a preview: it mounts each preview under a key built from
    its reference, so that another reference means another preview. *)
Lemma earlier_result_applied (p : Preview) (s' url u : string)
    (rest : list string) (r : Response) (data : JsonObject) :
  isS3Url s' = true →
  String.eqb s' (src p) = false →
  take_request url (pending p) = Some rest →
  body r = BodyJson (JValue data) →
  j_signedUrl data = Some u →
  truthy u = true →
  ∃ p1 p2,
    step p (Rerender s') = Some p1 ∧
    src p1 = s' ∧ render p1 = LoadingBox ∧
    pending p1 = (pending p ++ [s'])%list ∧
    step p1 (Settled url (FetchResolved r)) = Some p2 ∧
    src p2 = s' ∧ signedUrl p2 = u ∧
    pending p2 = (rest ++ [s'])%list ∧
    render p2 = ImgTag u.
Proof.
  intros Hs Hne Htake Hbody Hurl Hu.
  eexists. eexists. split.
  { cbn. rewrite Hne. unfold run_effect. cbn. rewrite Hs. reflexivity. }
  cbn. split; [reflexivity|]. split; [reflexivity|]. split; [reflexivity|].
  rewrite (take_request_app url _ rest [s'] Htake).
  unfold settle. cbn. rewrite Hbody, Hurl, Hu. cbn.
  split; [reflexivity|].
  unfold render. cbn. rewrite Hs. repeat split; reflexivity.
Qed.

Lemma earlier_result_applied_witness :
  ∃ p1 p2,
    step (mount "https://shop.s3.amazonaws.com/a.jpg")
      (Rerender "https://shop.s3.amazonaws.com/b.jpg") = Some p1 ∧
    step p1 (Settled "https://shop.s3.amazonaws.com/a.jpg"
               (signed_response "https://signed.example/a.jpg?sig=1"))
    = Some p2 ∧
    src p2 = "https://shop.s3.amazonaws.com/b.jpg" ∧
    render p2 = ImgTag "https://signed.example/a.jpg?sig=1".
Proof.
  destruct (earlier_result_applied
              (mount "https://shop.s3.amazonaws.com/a.jpg")
              "https://shop.s3.amazonaws.com/b.jpg"
              "https://shop.s3.amazonaws.com/a.jpg"
              "https://signed.example/a.jpg?sig=1"
              []
              {| status := 200;
                 body := BodyJson
                           (JValue {| j_error := None; j_message := None;
                                      j_urls := None;
                                      j_signedUrl :=
                                        Some "https://signed.example/a.jpg?sig=1" |}) |}
              _
              eq_refl eq_refl eq_refl eq_refl eq_refl eq_refl)
    as (p1 & p2 & H1 & _ & _ & _ & H2 & H3 & _ & _ & H4).
  exists p1, p2. repeat split; assumption.
Defined.

(** A preview whose reference is never replaced issues at most the one
    request of its mount, and that request is for the held reference. *)
Lemma unchanged_reference_requests (s : string) (es : list Event) (p : Preview) :
  forallb (keeps_src s) es = true →
  run (mount s) es = Some p →
  src p = s ∧ issued p = (if isS3Url s then [s] else []).
Proof.
  assert (∀ q, src q = s → ∀ q', forallb (keeps_src s) es = true →
               run q es = Some q' → src q' = s ∧ issued q' = issued q) as Hinv.
  { induction es as [|e es IH]; intros q Hq q' Hk Hrun; cbn in Hrun.
    - injection Hrun as <-. split; [exact Hq|reflexivity].
    - cbn in Hk. apply andb_prop in Hk as [Hke Hkes].
      destruct (step q e) as [q1|] eqn:Hstep; [|discriminate].
      assert (src q1 = s ∧ issued q1 = issued q) as [Hs1 Hi1].
      { destruct e as [s1 | url fr |]; cbn in Hstep, Hke.
        - rewrite Hq, Hke in Hstep. injection Hstep as <-.
          split; [exact Hq|reflexivity].
        - destruct (take_request url (pending q)); [|discriminate].
          injection Hstep as <-. unfold settle, sign_failed.
          destruct fr as [|r]; [split; [exact Hq|reflexivity]|].
          destruct (body r) as [|[|d]]; [split; [exact Hq|reflexivity]..|].
          destruct (j_signedUrl d) as [u|]; [|split; [exact Hq|reflexivity]].
          destruct (truthy u); split; first [exact Hq|reflexivity].
        - destruct (render q); try discriminate.
          injection Hstep as <-. split; [exact Hq|reflexivity]. }
      destruct (IH q1 Hs1 q' Hkes Hrun) as [H1 H2].
      split; [exact H1|]. rewrite H2. exact Hi1. }
  intros Hk Hrun.
  assert (src (mount s) = s) as H0.
  { unfold mount, run_effect. cbn. destruct (isS3Url s); reflexivity. }
  destruct (Hinv (mount s) H0 p Hk Hrun) as [H1 H2].
  split; [exact H1|]. rewrite H2.
  unfold mount, run_effect. cbn. destruct (isS3Url s); reflexivity.
Qed.

End PreviewClaims.

(** ** The displayed price *)

Section Price.
Import JS ProductCard.

Lemma fold_min_le_init (l : list Z) (a : Z) : (fold_left Z.min l a <= a)%Z.
Proof.
  revert a. induction l as [|x l IH]; intros a; cbn; [lia|].
  specialize (IH (Z.min a x)). lia.
Qed.

Lemma fold_min_le_elem (l : list Z) (a x : Z) :
  In x l → (fold_left Z.min l a <= x)%Z.
Proof.
  revert a. induction l as [|y l IH]; intros a Hin; [destruct Hin|].
  cbn. destruct Hin as [-> | Hin].
  - pose proof (fold_min_le_init l (Z.min a x)). lia.
  - apply IH. exact Hin.
Qed.

Lemma fold_max_ge_init (l : list Z) (a : Z) : (a <= fold_left Z.max l a)%Z.
Proof.
  revert a. induction l as [|x l IH]; intros a; cbn; [lia|].
  specialize (IH (Z.max a x)). lia.
Qed.

Lemma fold_max_ge_elem (l : list Z) (a x : Z) :
  In x l → (x <= fold_left Z.max l a)%Z.
Proof.
  revert a. induction l as [|y l IH]; intros a Hin; [destruct Hin|].
  cbn. destruct Hin as [-> | Hin].
  - pose proof (fold_max_ge_init l (Z.max a x)). lia.
  - apply IH. exact Hin.
Qed.

(** No variant is found under the [null] selection. *)
Lemma find_null (vs : list ProductVariant) :
  find_variant (id_is None) vs = None.
Proof. induction vs as [|v vs IH]; [reflexivity|exact IH]. Qed.

Lemma find_variant_In (f : ProductVariant → bool) (vs : list ProductVariant)
    (v : ProductVariant) :
  find_variant f vs = Some v → In v vs.
Proof.
  induction vs as [|x vs IH]; [discriminate|].
  cbn. destruct (f x); intros H.
  - injection H as ->. left. reflexivity.
  - right. exact (IH H).
Qed.

(** While there are variants one of them is selected. *)
Lemma selectedVariant_some (v : ProductVariant) (vs : list ProductVariant)
    (sel : option string) :
  ∃ w, selectedVariant (v :: vs) sel = Some w ∧ In w (v :: vs).
Proof.
  unfold selectedVariant. cbn [hasVariants].
  destruct (find_variant (id_is sel) (v :: vs)) as [w|] eqn:Hf.
  - exists w. split; [reflexivity|]. exact (find_variant_In _ _ _ Hf).
  - exists v. split; [reflexivity|]. left. reflexivity.
Qed.

(** The interval branch of lines 119-123 is never taken. *)
Lemma range_never_displayed (vs : list ProductVariant) (sel : option string)
    (lo hi : Z) :
  displayedPrice vs sel ≠ PriceRange lo hi.
Proof.
  destruct vs as [|v vs]; [discriminate|].
  unfold displayedPrice. cbn [hasVariants negb].
  destruct (selectedVariant_some v vs sel) as (w & -> & _). discriminate.
Qed.

End Price.

Section PriceClaims.
Import JS ProductCard.

(** C1, as stated, fails: with prices 300 and 700 and the [null] selection
    the card shows 300, the price of the first variant, not the interval
    from 300 to 700. *)
Lemma two_prices_show_first :
  displayedPrice
    [{| id := "v1"; unit := "KG"; amount := 1; price := 300; stock := 5 |};
     {| id := "v2"; unit := "KG"; amount := 2; price := 700; stock := 5 |}]
    None
  = PriceOf 300 ∧
  minPrice
    [{| id := "v1"; unit := "KG"; amount := 1; price := 300; stock := 5 |};
     {| id := "v2"; unit := "KG"; amount := 2; price := 700; stock := 5 |}]
  = 300%Z ∧
  maxPrice
    [{| id := "v1"; unit := "KG"; amount := 1; price := 300; stock := 5 |};
     {| id := "v2"; unit := "KG"; amount := 2; price := 700; stock := 5 |}]
  = 700%Z.
Proof. repeat split; reflexivity. Qed.

(** C1, amended: for a product whose variant list holds two variants of
    differing prices and whose selected id is [null], the selection falls
    back to the first variant and the displayed price is that variant's
    price, although the least price over the variants is below the greatest;
    the interval is displayed for no variant list and no selection. *)
Theorem null_selection_shows_first (v w : ProductVariant)
    (vs : list ProductVariant) :
  In w vs →
  price w ≠ price v →
  selectedVariant (v :: vs) None = Some v ∧
  displayedPrice (v :: vs) None = PriceOf (price v) ∧
  (minPrice (v :: vs) < maxPrice (v :: vs))%Z ∧
  (∀ us sel, displayedPrice us sel
             ≠ PriceRange (minPrice us) (maxPrice us)).
Proof.
  intros Hin Hne.
  assert (selectedVariant (v :: vs) None = Some v) as Hsel.
  { unfold selectedVariant. cbn [hasVariants]. rewrite find_null. reflexivity. }
  split; [exact Hsel|]. split.
  { unfold displayedPrice. cbn [hasVariants negb]. rewrite Hsel. reflexivity. }
  split.
  - unfold minPrice, maxPrice.
    assert (In (price w) (map price vs)) as Hw by (apply in_map; exact Hin).
    pose proof (fold_min_le_init (map price vs) (price v)).
    pose proof (fold_min_le_elem (map price vs) (price v) _ Hw).
    pose proof (fold_max_ge_init (map price vs) (price v)).
    pose proof (fold_max_ge_elem (map price vs) (price v) _ Hw).
    lia.
  - intros us sel. apply range_never_displayed.
Qed.

Lemma null_selection_shows_first_witness :
  displayedPrice
    [{| id := "v1"; unit := "KG"; amount := 1; price := 300; stock := 5 |};
     {| id := "v2"; unit := "KG"; amount := 2; price := 700; stock := 5 |}]
    None
  = PriceOf 300.
Proof.
  refine (proj1 (proj2 (null_selection_shows_first
            {| id := "v1"; unit := "KG"; amount := 1; price := 300; stock := 5 |}
            {| id := "v2"; unit := "KG"; amount := 2; price := 700; stock := 5 |}
            [{| id := "v2"; unit := "KG"; amount := 2; price := 700; stock := 5 |}]
            _ _))).
  - left. reflexivity.
  - cbn. lia.
Defined.

End PriceClaims.

(** * Further properties of the code *)

(** ** The preview: signing, failure, requests *)

Section PreviewLifecycle.
Import JS Net Images ImageManager.

Lemma mount_remote (s : string) :
  isS3Url s = true →
  mount s = {| src := s; signedUrl := s; loading := true; error := false;
               pending := [s]; issued := [s] |}.
Proof. intros H. unfold mount, run_effect. cbn. rewrite H. reflexivity. Qed.

Lemma take_request_head (url : string) (l : list string) :
  take_request url (url :: l) = Some l.
Proof. cbn. rewrite String.eqb_refl. reflexivity. Qed.

Lemma take_request_sub (url : string) (l rest : list string) :
  take_request url l = Some rest →
  (∀ u, In u rest → In u l) ∧ length l = S (length rest).
Proof.
  revert rest. induction l as [|x l IH]; intros rest H; [discriminate|].
  cbn in H. destruct (String.eqb x url).
  - injection H as <-. split; [intros u Hu; right; exact Hu | reflexivity].
  - destruct (take_request url l) as [r|]; [|discriminate].
    injection H as <-. destruct (IH r eq_refl) as [Hin Hlen]. split.
    + intros u [-> | Hu]; [left; reflexivity | right; exact (Hin u Hu)].
    + cbn. rewrite Hlen. reflexivity.
Qed.

(** A failed box means: not loading, and the error flag set. *)
Lemma render_failed (p : Preview) :
  render p = FailedBox ↔ loading p = false ∧ error p = true.
Proof.
  unfold render. split.
  - destruct (loading p); [discriminate|].
    destruct (error p); [split; reflexivity|].
    destruct (isS3Url (src p)); discriminate.
  - intros [-> ->]. reflexivity.
Qed.

(** The handlers of a settled request leave the reference and the error
    flag, once set, as they are, and clear loading. *)
Lemma settle_keeps_error (fr : FetchResult) (p : Preview) :
  error p = true →
  src (settle fr p) = src p ∧ loading (settle fr p) = false ∧
  error (settle fr p) = true.
Proof.
  intros He. unfold settle, sign_failed.
  destruct fr as [|r]; [repeat split|].
  destruct (body r) as [|[|d]]; [repeat split..|].
  destruct (j_signedUrl d) as [u|]; [|repeat split].
  destruct (truthy u); repeat split; exact He.
Qed.

(** X1: a preview mounted on an object-storage reference shows the loading
    box and has issued one signing request, for that reference; when the
    request comes back with a body that holds a non-empty [signedUrl],
    under any status, the preview shows the image tag with that URL and
    waits for nothing more. *)
Theorem signing_success (s u : string) (r : Response) (data : JsonObject) :
  isS3Url s = true →
  body r = BodyJson (JValue data) →
  j_signedUrl data = Some u →
  truthy u = true →
  render (mount s) = LoadingBox ∧ issued (mount s) = [s] ∧
  ∃ p, run (mount s) [Settled s (FetchResolved r)] = Some p ∧
       render p = ImgTag u ∧ src p = s ∧ pending p = [] ∧ issued p = [s].
Proof.
  intros Hs Hb Hu Ht. rewrite (mount_remote s Hs).
  split; [reflexivity|]. split; [reflexivity|].
  eexists. split.
  { cbn. rewrite String.eqb_refl. cbn. rewrite Hb, Hu, Ht. reflexivity. }
  unfold render. cbn. rewrite Hs. repeat split; reflexivity.
Qed.

Lemma signing_success_witness :
  ∃ p, run (mount "https://bucket.s3.amazonaws.com/x.jpg")
         [Settled "https://bucket.s3.amazonaws.com/x.jpg"
            (FetchResolved
               {| status := 500;
                  body := BodyJson
                            (JValue {| j_error := None; j_message := None;
                                       j_urls := None;
                                       j_signedUrl :=
                                         Some "https://signed.example/x.jpg" |}) |})]
       = Some p ∧
       render p = ImgTag "https://signed.example/x.jpg".
Proof.
  destruct (signing_success "https://bucket.s3.amazonaws.com/x.jpg"
              "https://signed.example/x.jpg"
              {| status := 500;
                 body := BodyJson
                           (JValue {| j_error := None; j_message := None;
                                      j_urls := None;
                                      j_signedUrl :=
                                        Some "https://signed.example/x.jpg" |}) |}
              _ eq_refl eq_refl eq_refl eq_refl)
    as (_ & _ & p & H1 & H2 & _).
  exists p. split; assumption.
Defined.

(** X2: when the signing request of a mounted preview is rejected, or its
    body does not parse, or parses to [null], or holds no [signedUrl] or an
    empty one, the preview shows the failed box. *)
Theorem signing_failure (s : string) (fr : FetchResult) :
  isS3Url s = true →
  (fr = FetchRejected ∨
   ∃ r, fr = FetchResolved r ∧
        (body r = BodyInvalid ∨ body r = BodyJson JNull ∨
         ∃ d, body r = BodyJson (JValue d) ∧
              or_else (j_signedUrl d) "" = "")) →
  ∃ p, run (mount s) [Settled s fr] = Some p ∧
       render p = FailedBox ∧ src p = s ∧ pending p = [].
Proof.
  intros Hs Hfr. rewrite (mount_remote s Hs). cbn.
  rewrite String.eqb_refl. eexists. split; [reflexivity|].
  destruct Hfr as [-> | (r & -> & Hr)]; [repeat split|].
  unfold settle.
  destruct Hr as [-> | [-> | (d & -> & Hd)]]; [repeat split..|].
  destruct (j_signedUrl d) as [u|]; [|repeat split].
  destruct u as [|c u]; [repeat split|]. cbn in Hd. discriminate.
Qed.

Lemma signing_failure_witness :
  ∃ p, run (mount "https://bucket.s3.amazonaws.com/x.jpg")
         [Settled "https://bucket.s3.amazonaws.com/x.jpg"
            (FetchResolved
               {| status := 200;
                  body := BodyJson
                            (JValue {| j_error := Some "denied";
                                       j_message := None; j_urls := None;
                                       j_signedUrl := None |}) |})]
       = Some p ∧
       render p = FailedBox.
Proof.
  destruct (signing_failure "https://bucket.s3.amazonaws.com/x.jpg"
              (FetchResolved
                 {| status := 200;
                    body := BodyJson
                              (JValue {| j_error := Some "denied";
                                         j_message := None; j_urls := None;
                                         j_signedUrl := None |}) |})
              eq_refl
              (or_intror
                 (ex_intro _ _
                    (conj eq_refl
                       (or_intror
                          (or_intror
                             (ex_intro _ _ (conj eq_refl eq_refl))))))))
    as (p & H1 & H2 & _).
  exists p. split; assumption.
Defined.

(** X3: a failure is final for the held reference: once the failed box is
    shown it stays, whatever requests settle afterwards (a signed URL that
    arrives later does not clear the error flag), until the preview is
    given another reference. *)
Theorem failure_is_terminal (p p' : Preview) (es : list Event) :
  render p = FailedBox →
  forallb (keeps_src (src p)) es = true →
  run p es = Some p' →
  render p' = FailedBox ∧ src p' = src p.
Proof.
  intros Hr. apply render_failed in Hr. destruct Hr as [Hl He].
  remember (src p) as s eqn:Hs. symmetry in Hs.
  revert p Hs Hl He. induction es as [|e es IH]; intros p Hs Hl He Hk Hrun.
  - cbn in Hrun. injection Hrun as <-.
    split; [apply render_failed; split; assumption | exact Hs].
  - cbn in Hk, Hrun. apply andb_prop in Hk as [Hke Hkes].
    destruct (step p e) as [q|] eqn:Hstep; [|discriminate].
    assert (src q = s ∧ loading q = false ∧ error q = true) as (H1 & H2 & H3).
    { destruct e as [s1 | url fr |]; cbn in Hstep, Hke.
      - rewrite Hs, Hke in Hstep. injection Hstep as <-.
        repeat split; assumption.
      - destruct (take_request url (pending p)) as [rest|]; [|discriminate].
        injection Hstep as <-.
        match goal with
        | |- context [settle fr ?x] =>
            destruct (settle_keeps_error fr x He) as (Ha & Hb & Hc)
        end.
        rewrite Ha, Hb, Hc. cbn. repeat split. exact Hs.
      - unfold render in Hstep. rewrite Hl, He in Hstep. discriminate. }
    exact (IH q H1 H2 H3 Hkes Hrun).
Qed.

Lemma failure_is_terminal_witness :
  render {| src := "https://bucket.s3.amazonaws.com/x.jpg";
            signedUrl := "https://signed.example/x.jpg";
            loading := false; error := true; pending := [];
            issued := ["https://bucket.s3.amazonaws.com/x.jpg";
                       "https://bucket.s3.amazonaws.com/x.jpg"] |}
  = FailedBox.
Proof.
  exact (proj1 (failure_is_terminal
                  {| src := "https://bucket.s3.amazonaws.com/x.jpg";
                     signedUrl := "https://bucket.s3.amazonaws.com/x.jpg";
                     loading := false; error := true;
                     pending := ["https://bucket.s3.amazonaws.com/x.jpg"];
                     issued := ["https://bucket.s3.amazonaws.com/x.jpg";
                                "https://bucket.s3.amazonaws.com/x.jpg"] |}
                  _
                  [Settled "https://bucket.s3.amazonaws.com/x.jpg"
                     (signed_response "https://signed.example/x.jpg")]
                  eq_refl eq_refl eq_refl)).
Defined.

End PreviewLifecycle.

Section PreviewRequests.
Import JS Net Images ImageManager.

(** X4: a preview whose reference is never replaced keeps that reference
    and issues the one signing request of its mount when the reference
    matches the object-storage pattern, and none otherwise, whatever
    settles and however often it is rendered again. *)
Theorem one_request_per_mount (s : string) (es : list Event) (p : Preview) :
  forallb (keeps_src s) es = true →
  run (mount s) es = Some p →
  src p = s ∧ issued p = (if isS3Url s then [s] else []).
Proof. exact (unchanged_reference_requests s es p). Qed.

Lemma one_request_per_mount_witness :
  issued {| src := "https://bucket.s3.amazonaws.com/x.jpg";
            signedUrl := "https://signed.example/x.jpg";
            loading := false; error := true; pending := [];
            issued := ["https://bucket.s3.amazonaws.com/x.jpg"] |}
  = ["https://bucket.s3.amazonaws.com/x.jpg"].
Proof.
  exact (proj2 (one_request_per_mount
                  "https://bucket.s3.amazonaws.com/x.jpg"
                  [Rerender "https://bucket.s3.amazonaws.com/x.jpg";
                   Settled "https://bucket.s3.amazonaws.com/x.jpg"
                     (signed_response "https://signed.example/x.jpg");
                   ImgError]
                  _ eq_refl eq_refl)).
Defined.

(** What holds of the requests of a preview in every state. *)
Lemma requests_invariant_step (p q : Preview) (e : Event) :
  Forall (λ u, isS3Url u = true) (issued p) →
  (∀ u, In u (pending p) → In u (issued p)) →
  length (pending p) ≤ length (issued p) →
  step p e = Some q →
  Forall (λ u, isS3Url u = true) (issued q) ∧
  (∀ u, In u (pending q) → In u (issued q)) ∧
  length (pending q) ≤ length (issued q).
Proof.
  intros Hall Hin Hlen Hstep.
  destruct e as [s | url fr |]; cbn in Hstep.
  - destruct (String.eqb s (src p)).
    { injection Hstep as <-. repeat split; assumption. }
    unfold run_effect in Hstep. cbn in Hstep.
    destruct (isS3Url s) eqn:Hs; injection Hstep as <-; cbn;
      [|repeat split; assumption].
    split; [|split].
    + apply Forall_app. split; [exact Hall|]. constructor; [exact Hs|constructor].
    + intros u Hu. apply in_app_or in Hu. apply in_or_app.
      destruct Hu as [Hu | Hu]; [left; exact (Hin u Hu) | right; exact Hu].
    + rewrite !length_app. cbn. lia.
  - destruct (take_request url (pending p)) as [rest|] eqn:Ht; [|discriminate].
    injection Hstep as <-.
    destruct (take_request_sub url _ rest Ht) as [Hsub Hl].
    assert (∀ x, issued (settle fr x) = issued x ∧
                 pending (settle fr x) = pending x) as Hsame.
    { intros x. unfold settle, sign_failed.
      destruct fr as [|r]; [split; reflexivity|].
      destruct (body r) as [|[|d]]; [split; reflexivity..|].
      destruct (j_signedUrl d) as [u|]; [|split; reflexivity].
      destruct (truthy u); split; reflexivity. }
    match goal with
    | |- context [settle fr ?x] => destruct (Hsame x) as [-> ->]
    end.
    cbn. split; [exact Hall|]. split.
    + intros u Hu. exact (Hin u (Hsub u Hu)).
    + lia.
  - destruct (render p); try discriminate.
    injection Hstep as <-. cbn. repeat split; assumption.
Qed.

(** X5: whatever references a preview is given and whatever comes back, the
    signing requests it has issued are all for references that match the
    object-storage pattern, and the requests in flight are among those
    issued and no more numerous. *)
Theorem only_remote_references_signed (s : string) (es : list Event)
    (p : Preview) :
  run (mount s) es = Some p →
  Forall (λ u, isS3Url u = true) (issued p) ∧
  (∀ u, In u (pending p) → In u (issued p)) ∧
  length (pending p) ≤ length (issued p).
Proof.
  assert (∀ q, Forall (λ u, isS3Url u = true) (issued q) →
               (∀ u, In u (pending q) → In u (issued q)) →
               length (pending q) ≤ length (issued q) →
               run q es = Some p →
               Forall (λ u, isS3Url u = true) (issued p) ∧
               (∀ u, In u (pending p) → In u (issued p)) ∧
               length (pending p) ≤ length (issued p)) as Hinv.
  { induction es as [|e es IH]; intros q H1 H2 H3 Hrun; cbn in Hrun.
    - injection Hrun as <-. repeat split; assumption.
    - destruct (step q e) as [q1|] eqn:Hstep; [|discriminate].
      destruct (requests_invariant_step q q1 e H1 H2 H3 Hstep) as (A & B & C).
      exact (IH q1 A B C Hrun). }
  intros Hrun. apply (Hinv (mount s)); [| | |exact Hrun];
    unfold mount, run_effect; cbn; destruct (isS3Url s) eqn:Hs; cbn.
  - constructor; [exact Hs|constructor].
  - constructor.
  - intros u Hu. exact Hu.
  - intros u Hu. exact Hu.
  - lia.
  - lia.
Qed.

Lemma only_remote_references_signed_witness :
  Forall (λ u, isS3Url u = true)
    (issued {| src := "https://bucket.s3.amazonaws.com/y.jpg";
               signedUrl := "/uploads/a.jpg";
               loading := true; error := false;
               pending := ["https://bucket.s3.amazonaws.com/y.jpg"];
               issued := ["https://bucket.s3.amazonaws.com/y.jpg"] |}).
Proof.
  exact (proj1 (only_remote_references_signed "/uploads/a.jpg"
                  [Rerender "/uploads/b.jpg";
                   Rerender "https://bucket.s3.amazonaws.com/y.jpg"]
                  _ eq_refl)).
Defined.

End PreviewRequests.

(** ** removeAt on every input *)

Section RemoveAtAlways.
Import JS Net Images ImageManager ImageManagerView.

Lemma remove_local_handed (images : list string) (idx : nat) :
  remove_local images idx = [OnChange (delete idx images)].
Proof.
  unfold remove_local. rewrite filter_indexed_remove, delete_take_drop.
  reflexivity.
Qed.

(** X6: on every input, [removeAt] issues at most one request, the delete
    request for a managed reference found at the index, and hands back at
    most one list, the input without the element at the index: it adds
    nothing, reorders nothing and touches no other position. *)
Theorem removeAt_at_most_once (images : list string) (idx : nat)
    (net : string → FetchResult) :
  (handed_back (removeAt images idx net) = [] ∨
   handed_back (removeAt images idx net) = [delete idx images]) ∧
  (requests (removeAt images idx net) = [] ∨
   ∃ url, images !! idx = Some url ∧ isManaged url = true ∧
          requests (removeAt images idx net) = [FetchDelete url]).
Proof.
  unfold removeAt. destruct (images !! idx) as [url|] eqn:Hat.
  - destruct (isManaged url) eqn:Hm.
    + split.
      * destruct (net url) as [|r]; [left; reflexivity|].
        unfold delete_response.
        destruct (body r) as [|[|result]]; [left; reflexivity..|].
        destruct (ok r); cbn; [|left; reflexivity].
        right. rewrite filter_indexed_remove, delete_take_drop. reflexivity.
      * right. exists url. split; [reflexivity|]. split; [exact Hm|].
        destruct (net url) as [|r]; [reflexivity|].
        unfold delete_response.
        destruct (body r) as [|[|result]]; [reflexivity..|].
        destruct (ok r); reflexivity.
    + rewrite remove_local_handed. split; [right|left]; reflexivity.
  - rewrite remove_local_handed. split; [right|left]; reflexivity.
Qed.

(** X7: in the list a deletion hands back, every entry before the index is
    where it was, every entry from the index on is the one that followed
    it, and for an index inside the list the list is one entry shorter. *)
Theorem handed_back_positions (images : list string) (idx : nat)
    (net : string → FetchResult) (next : list string) :
  handed_back (removeAt images idx net) = [next] →
  (∀ i, i < idx → next !! i = images !! i) ∧
  (∀ i, idx ≤ i → next !! i = images !! S i) ∧
  (idx < length images → S (length next) = length images).
Proof.
  intros H.
  destruct (removeAt_at_most_once images idx net) as [[H0 | H1] _];
    [rewrite H0 in H; discriminate|].
  rewrite H1 in H. injection H as <-. split; [|split].
  - intros i Hi. apply list_lookup_delete_lt. exact Hi.
  - intros i Hi. apply list_lookup_delete_ge. exact Hi.
  - intros Hlt. pose proof (length_delete images idx) as Hd.
    destruct (lookup_lt_is_Some_2 images idx Hlt) as [x Hx].
    specialize (Hd (ex_intro _ x Hx)). lia.
Qed.

Lemma handed_back_positions_witness :
  ["/uploads/a.jpg"; "/uploads/c.jpg"] !! 1 =
  ["/uploads/a.jpg"; "https://cdn.example.com/b.jpg"; "/uploads/c.jpg"] !! 2.
Proof.
  refine (proj1 (proj2 (handed_back_positions
            ["/uploads/a.jpg"; "https://cdn.example.com/b.jpg"; "/uploads/c.jpg"]
            1 (λ _, FetchRejected) ["/uploads/a.jpg"; "/uploads/c.jpg"]
            eq_refl)) 1 _).
  lia.
Defined.

(** X8: two deletions started on the same list do not compose: the list
    handed back by the deletion at [j] still holds the entry at any other
    index [i], so handing it back after the deletion at [i] has completed
    puts that entry back on the page. *)
Theorem other_entry_handed_back (images : list string) (i j : nat)
    (net : string → FetchResult) (u : string) (next : list string) :
  i ≠ j →
  images !! i = Some u →
  handed_back (removeAt images j net) = [next] →
  In u next.
Proof.
  intros Hne Hi H.
  destruct (handed_back_positions images j net next H) as (Hlt & Hge & _).
  apply list_elem_of_In.
  destruct (Nat.lt_ge_cases i j) as [Hij | Hij].
  - apply (list_elem_of_lookup_2 next i). rewrite Hlt by exact Hij. exact Hi.
  - destruct i as [|i']; [lia|].
    apply (list_elem_of_lookup_2 next i'). rewrite Hge by lia. exact Hi.
Qed.

Lemma other_entry_handed_back_witness :
  In "https://cdn.example.com/a.jpg"
     ["https://cdn.example.com/a.jpg"; "/uploads/c.jpg"].
Proof.
  exact (other_entry_handed_back
           ["https://cdn.example.com/a.jpg"; "https://cdn.example.com/b.jpg";
            "/uploads/c.jpg"]
           0 1 (λ _, FetchRejected) "https://cdn.example.com/a.jpg"
           ["https://cdn.example.com/a.jpg"; "/uploads/c.jpg"]
           ltac:(lia) eq_refl eq_refl).
Defined.

(** X9: the deletion of a managed reference always shows two toasts under
    the id of its index: the loading toast, then a toast that replaces it,
    which is the success toast exactly when a list is handed back and the
    error toast otherwise; no path leaves the loading toast standing. *)
Theorem deletion_toasts (images : list string) (idx : nat)
    (net : string → FetchResult) (url : string) :
  images !! idx = Some url →
  isManaged url = true →
  ∃ k, toasts (removeAt images idx net) = [(ToastLoading, idx); (k, idx)] ∧
       ((k = ToastSuccess ∧
         handed_back (removeAt images idx net) = [delete idx images]) ∨
        (k = ToastError ∧ handed_back (removeAt images idx net) = [])).
Proof.
  intros Hat Hm. unfold removeAt. rewrite Hat, Hm.
  destruct (net url) as [|r].
  { exists ToastError. split; [reflexivity|]. right. split; reflexivity. }
  unfold delete_response.
  destruct (body r) as [|[|result]];
    [exists ToastError; split; [reflexivity|]; right; split; reflexivity..|].
  destruct (ok r); cbn.
  - exists ToastSuccess. split; [reflexivity|]. left. split; [reflexivity|].
    rewrite filter_indexed_remove, delete_take_drop. reflexivity.
  - exists ToastError. split; [reflexivity|]. right. split; reflexivity.
Qed.

Lemma deletion_toasts_witness :
  ∃ k, toasts (removeAt ["/uploads/a.jpg"] 0 (λ _, FetchRejected))
       = [(ToastLoading, 0); (k, 0)].
Proof.
  destruct (deletion_toasts ["/uploads/a.jpg"] 0 (λ _, FetchRejected)
              "/uploads/a.jpg" eq_refl eq_refl) as (k & H & _).
  exists k. exact H.
Defined.

End RemoveAtAlways.

(** ** onFiles on every input *)

Section OnFilesAlways.
Import JS Net Images ImageManager.

(** X10: on every input, [onFiles] either does nothing at all (no files
    chosen), or sets the uploading flag, issues one upload request with all
    the chosen files in their order, hands back at most one list, which
    begins with the input list, and clears the flag last, also on the paths
    that throw. *)
Theorem onFiles_brackets (images : list string) (files : option (list string))
    (net : list string → FetchResult) :
  (onFiles images files net = ([], Returned) ∧
   (files = None ∨ files = Some [])) ∨
  ∃ f fs mid c,
    files = Some (f :: fs) ∧
    onFiles images files net
    = (([SetUploading true; FetchUpload (f :: fs)] ++ mid
        ++ [SetUploading false])%list, c) ∧
    (mid = [] ∨
     ∃ urls, mid = [OnChange (images ++ urls)%list] ∧ c = Returned).
Proof.
  destruct files as [[|f fs]|].
  - left. split; [reflexivity | right; reflexivity].
  - right. exists f, fs. cbn.
    destruct (net (f :: fs)) as [|res].
    { exists [], Threw. repeat split. left. reflexivity. }
    destruct (ok res).
    + destruct (body res) as [|[|data]].
      * exists [], Threw. repeat split. left. reflexivity.
      * exists [], Threw. repeat split. left. reflexivity.
      * eexists [_], Returned. split; [reflexivity|]. split; [reflexivity|].
        right. eexists. split; reflexivity.
    + exists [], Returned. repeat split. left. reflexivity.
  - left. split; [reflexivity | left; reflexivity].
Qed.

(** X11: an upload that does not succeed hands nothing back. Under a status
    outside 200-299 the handler returns normally and reports nothing; when
    the request is rejected, or a 2xx body does not parse or parses to
    [null], the handler throws, having cleared the uploading flag. *)
Theorem failed_upload_hands_nothing (images : list string) (f : string)
    (fs : list string) (net : list string → FetchResult) :
  (net (f :: fs) = FetchRejected ∨
   ∃ res, net (f :: fs) = FetchResolved res ∧
          (ok res = false ∨ body res = BodyInvalid ∨
           body res = BodyJson JNull)) →
  fst (onFiles images (Some (f :: fs)) net)
  = [SetUploading true; FetchUpload (f :: fs); SetUploading false] ∧
  (snd (onFiles images (Some (f :: fs)) net) = Returned ↔
   ∃ res, net (f :: fs) = FetchResolved res ∧ ok res = false).
Proof.
  intros H. cbn. destruct H as [-> | (res & -> & Hres)].
  { split; [reflexivity|]. split; [discriminate|].
    intros (res & Hres & _). discriminate. }
  destruct (ok res) eqn:Hok.
  - assert (body res = BodyInvalid ∨ body res = BodyJson JNull) as Hb.
    { destruct Hres as [Hres | Hres]; [discriminate | exact Hres]. }
    assert (∀ res', FetchResolved res = FetchResolved res' →
                    ok res' = false → False) as Hno.
    { intros res' Heq Hf. injection Heq as <-. congruence. }
    destruct Hb as [-> | ->]; (split; [reflexivity|]);
      (split; [discriminate|]); intros (res' & Heq & Hf);
      exact (False_ind _ (Hno res' Heq Hf)).
  - split; [reflexivity|]. split; [|reflexivity].
    intros _. exists res. split; [reflexivity | exact Hok].
Qed.

Lemma failed_upload_hands_nothing_witness :
  fst (onFiles ["/uploads/a.jpg"] (Some ["b.png"])
         (λ _, FetchResolved {| status := 413; body := BodyInvalid |}))
  = [SetUploading true; FetchUpload ["b.png"]; SetUploading false].
Proof.
  refine (proj1 (failed_upload_hands_nothing ["/uploads/a.jpg"] "b.png" []
                   (λ _, FetchResolved {| status := 413; body := BodyInvalid |})
                   _)).
  right. eexists. split; [reflexivity|]. left. reflexivity.
Defined.

(** X12: a 2xx answer whose body holds no [urls] is taken as an empty list
    of new references: the callback is still invoked, with a list equal to
    the input. *)
Theorem upload_without_urls (images : list string) (f : string)
    (fs : list string) (net : list string → FetchResult) (res : Response)
    (data : JsonObject) :
  net (f :: fs) = FetchResolved res →
  ok res = true →
  body res = BodyJson (JValue data) →
  j_urls data = None →
  handed_back (fst (onFiles images (Some (f :: fs)) net)) = [images] ∧
  snd (onFiles images (Some (f :: fs)) net) = Returned.
Proof.
  intros Hnet Hok Hbody Hurls. cbn. rewrite Hnet, Hok, Hbody, Hurls. cbn.
  rewrite app_nil_r. split; reflexivity.
Qed.

Lemma upload_without_urls_witness :
  handed_back
    (fst (onFiles ["/uploads/a.jpg"] (Some ["b.png"])
            (λ _, FetchResolved
                    {| status := 200;
                       body := BodyJson
                                 (JValue {| j_error := None;
                                            j_message := Some "ok";
                                            j_urls := None;
                                            j_signedUrl := None |}) |})))
  = [["/uploads/a.jpg"]].
Proof.
  exact (proj1 (upload_without_urls ["/uploads/a.jpg"] "b.png" []
                  (λ _, FetchResolved
                          {| status := 200;
                             body := BodyJson
                                       (JValue {| j_error := None;
                                                  j_message := Some "ok";
                                                  j_urls := None;
                                                  j_signedUrl := None |}) |})
                  {| status := 200;
                     body := BodyJson
                               (JValue {| j_error := None;
                                          j_message := Some "ok";
                                          j_urls := None;
                                          j_signedUrl := None |}) |}
                  {| j_error := None; j_message := Some "ok";
                     j_urls := None; j_signedUrl := None |}
                  eq_refl eq_refl eq_refl eq_refl)).
Defined.

End OnFilesAlways.

(** ** The grid of previews and its keys *)

Section Grid.
Import JS Net Images ImageManager ImageManagerView.

Lemma digits_dash_free (d : Decimal.uint) :
  dash_free (NilEmpty.string_of_uint d) = true.
Proof. induction d; cbn; [reflexivity | exact IHd..]. Qed.

Lemma decimal_dash_free (i : nat) : dash_free (decimal i) = true.
Proof. apply digits_dash_free. Qed.

Lemma decimal_inj (i j : nat) : decimal i = decimal j → i = j.
Proof.
  unfold decimal. intros H.
  assert (Nat.to_uint i = Nat.to_uint j) as Hu.
  { pose proof (NilEmpty.usu (Nat.to_uint i)) as Hi.
    pose proof (NilEmpty.usu (Nat.to_uint j)) as Hj.
    rewrite H in Hi. rewrite Hi in Hj. injection Hj as Hj. exact Hj. }
  rewrite <- (Unsigned.of_to i), <- (Unsigned.of_to j), Hu. reflexivity.
Qed.

Lemma dash_not_free (b y : string) : dash_free (b ++ "-" ++ y) = false.
Proof.
  induction b as [|c b IH]; [reflexivity|].
  cbn. cbn in IH. rewrite IH. apply andb_false_r.
Qed.

(** A string is cut in one way only at a [-] that is followed by none. *)
Lemma split_at_last_dash (a b x y : string) :
  dash_free x = true → dash_free y = true →
  a ++ "-" ++ x = b ++ "-" ++ y → a = b ∧ x = y.
Proof.
  intros Hx Hy. revert b. induction a as [|c a IH]; intros [|d b] H; cbn in H.
  - injection H as ->. split; reflexivity.
  - injection H as <- ->. change (dash_free (b ++ "-" ++ y) = true) in Hx.
    rewrite dash_not_free in Hx. discriminate.
  - injection H as -> <-. change (dash_free (a ++ "-" ++ x) = true) in Hy.
    rewrite dash_not_free in Hy. discriminate.
  - injection H as -> H. destruct (IH b H) as [-> ->]. split; reflexivity.
Qed.

Lemma preview_key_inj (s s' : string) (i i' : nat) :
  preview_key s i = preview_key s' i' → s = s' ∧ i = i'.
Proof.
  unfold preview_key. intros H.
  destruct (split_at_last_dash s s' (decimal i) (decimal i')
              (decimal_dash_free i) (decimal_dash_free i') H) as [-> Hd].
  split; [reflexivity | exact (decimal_inj i i' Hd)].
Qed.

Lemma grid_from_cells (k : nat) (images : list string) (c : Cell) :
  In c (grid_from k images) →
  k ≤ cell_remove c ∧ cell_key c = preview_key (cell_src c) (cell_remove c).
Proof.
  revert k. induction images as [|s images IH]; intros k H; [destruct H|].
  cbn in H. destruct H as [<- | H].
  - cbn. split; [lia | reflexivity].
  - destruct (IH (S k) H) as [Hle Hkey]. split; [lia | exact Hkey].
Qed.

Lemma grid_from_lookup (k i : nat) (images : list string) :
  grid_from k images !! i
  = (λ s, {| cell_key := preview_key s (k + i); cell_src := s;
             cell_remove := k + i |}) <$> images !! i.
Proof.
  revert k i. induction images as [|s images IH]; intros k [|i];
    [reflexivity | reflexivity | |].
  - cbn. rewrite Nat.add_0_r. reflexivity.
  - cbn. rewrite IH. replace (S k + i) with (k + S i) by lia. reflexivity.
Qed.

Lemma grid_from_length (k : nat) (images : list string) :
  length (grid_from k images) = length images.
Proof.
  revert k. induction images as [|s images IH]; intros k; [reflexivity|].
  cbn. rewrite IH. reflexivity.
Qed.

(** X13: the keys of the grid's cells are pairwise distinct for every list
    of references, duplicates included: a key determines both the reference
    and the index it was built from. *)
Theorem grid_keys_distinct (images : list string) :
  NoDup (map cell_key (grid images)) ∧
  (∀ s s' i i', preview_key s i = preview_key s' i' → s = s' ∧ i = i').
Proof.
  split; [|intros s s' i i'; apply preview_key_inj].
  unfold grid. generalize 0 as k.
  induction images as [|s images IH]; intros k; cbn; constructor.
  - intros Hin. apply list_elem_of_In, in_map_iff in Hin.
    destruct Hin as (c & Hkey & Hc).
    destruct (grid_from_cells (S k) images c Hc) as [Hle Hck].
    rewrite Hck in Hkey. apply preview_key_inj in Hkey. lia.
  - apply IH.
Qed.

(** X14: the grid has one cell per reference, in order; the cell at
    position [i] previews the reference at [i], and the index its remove
    button passes to [removeAt] is [i], so that [removeAt] looks up the
    very reference the cell shows. *)
Theorem grid_cell_removes_itself (images : list string) (i : nat) (c : Cell) :
  grid images !! i = Some c →
  length (grid images) = length images ∧
  cell_remove c = i ∧
  images !! cell_remove c = Some (cell_src c) ∧
  cell_key c = preview_key (cell_src c) i.
Proof.
  intros H. split; [apply grid_from_length|].
  unfold grid in H. rewrite grid_from_lookup in H.
  destruct (images !! i) as [s|] eqn:Hs; [|discriminate].
  cbn in H. injection H as <-. cbn. repeat split. exact Hs.
Qed.

Lemma grid_cell_removes_itself_witness :
  cell_remove {| cell_key := "/uploads/a.jpg-1"; cell_src := "/uploads/a.jpg";
                 cell_remove := 1 |} = 1.
Proof.
  exact (proj1 (proj2 (grid_cell_removes_itself
                         ["/uploads/a.jpg"; "/uploads/a.jpg"] 1
                         {| cell_key := "/uploads/a.jpg-1";
                            cell_src := "/uploads/a.jpg";
                            cell_remove := 1 |}
                         eq_refl))).
Defined.

End Grid.

(** ** The selected variant *)

Section Selection.
Import JS Images ProductCard ProductCardView.

Lemma find_variant_first (f : ProductVariant → bool) (v : ProductVariant)
    (vs : list ProductVariant) :
  f v = true → find_variant f (v :: vs) = Some v.
Proof. intros H. cbn. rewrite H. reflexivity. Qed.

Lemma find_variant_none (f : ProductVariant → bool)
    (vs : list ProductVariant) :
  (∀ w, In w vs → f w = false) → find_variant f vs = None.
Proof.
  induction vs as [|v vs IH]; intros H; [reflexivity|].
  cbn. rewrite (H v (or_introl eq_refl)).
  apply IH. intros w Hw. apply H. right. exact Hw.
Qed.

(** With distinct ids, searching for a variant's id finds that variant. *)
Lemma find_variant_by_id (vs : list ProductVariant) (v : ProductVariant) :
  NoDup (map id vs) → In v vs →
  find_variant (id_is (Some (id v))) vs = Some v.
Proof.
  induction vs as [|x vs IH]; intros Hnd Hin; [destruct Hin|].
  cbn in Hnd. apply NoDup_cons in Hnd as [Hx Hnd].
  cbn. destruct (String.eqb_spec (id x) (id v)) as [Heq | Hne].
  - destruct Hin as [-> | Hin]; [reflexivity|].
    exfalso. apply Hx. rewrite Heq. apply list_elem_of_In.
    apply in_map. exact Hin.
  - destruct Hin as [-> | Hin]; [congruence|]. exact (IH Hnd Hin).
Qed.

Lemma displayed_of_selected (vs : list ProductVariant) (sel : option string)
    (v : ProductVariant) :
  selectedVariant vs sel = Some v →
  displayedPrice vs sel = PriceOf (price v).
Proof.
  intros H. unfold displayedPrice. destruct vs as [|x vs].
  - cbn in H. discriminate.
  - cbn [hasVariants negb]. rewrite H. reflexivity.
Qed.

(** X15: the id the card starts with selects the first variant, also when
    that variant's id is empty and the stored id is [null]; the price first
    displayed is the first variant's price. *)
Theorem initial_selection_is_first (v : ProductVariant)
    (vs : list ProductVariant) :
  selectedVariant (v :: vs) (initialSelectedVariantId (v :: vs)) = Some v ∧
  displayedPrice (v :: vs) (initialSelectedVariantId (v :: vs))
  = PriceOf (price v).
Proof.
  assert (selectedVariant (v :: vs) (initialSelectedVariantId (v :: vs))
          = Some v) as H.
  { unfold selectedVariant, initialSelectedVariantId. cbn [hasVariants].
    destruct (truthy (id v)).
    - rewrite find_variant_first; [reflexivity|]. cbn. apply String.eqb_refl.
    - rewrite find_null. reflexivity. }
  split; [exact H | exact (displayed_of_selected _ _ _ H)].
Qed.

(** X16: when the variants' ids are pairwise distinct, a click on a
    variant's button selects that variant and the card displays its
    price. *)
Theorem click_selects_variant (vs : list ProductVariant) (v : ProductVariant) :
  NoDup (map id vs) →
  In v vs →
  selectedVariant vs (clickVariant v) = Some v ∧
  displayedPrice vs (clickVariant v) = PriceOf (price v).
Proof.
  intros Hnd Hin.
  assert (selectedVariant vs (clickVariant v) = Some v) as H.
  { unfold selectedVariant, clickVariant.
    rewrite (find_variant_by_id vs v Hnd Hin).
    destruct vs; [destruct Hin | reflexivity]. }
  split; [exact H | exact (displayed_of_selected _ _ _ H)].
Qed.

Lemma example_ids_distinct : NoDup ["v1"; "v2"].
Proof.
  apply NoDup_cons. split.
  - intros H. apply list_elem_of_In in H. destruct H as [H | []]. discriminate.
  - apply NoDup_cons. split; [|apply NoDup_nil; exact I].
    intros H. apply list_elem_of_In in H. destruct H.
Defined.

Lemma click_selects_variant_witness :
  displayedPrice
    [{| id := "v1"; unit := "KG"; amount := 1; price := 300; stock := 5 |};
     {| id := "v2"; unit := "KG"; amount := 2; price := 700; stock := 5 |}]
    (Some "v2")
  = PriceOf 700.
Proof.
  refine (proj2 (click_selects_variant
            [{| id := "v1"; unit := "KG"; amount := 1; price := 300; stock := 5 |};
             {| id := "v2"; unit := "KG"; amount := 2; price := 700; stock := 5 |}]
            {| id := "v2"; unit := "KG"; amount := 2; price := 700; stock := 5 |}
            _ _)).
  - exact example_ids_distinct.
  - right. left. reflexivity.
Defined.

(** X17: a selected id that no variant carries (a stale id) selects the
    first variant. *)
Theorem stale_id_selects_first (v : ProductVariant) (vs : list ProductVariant)
    (s : string) :
  (∀ w, In w (v :: vs) → id w ≠ s) →
  selectedVariant (v :: vs) (Some s) = Some v ∧
  displayedPrice (v :: vs) (Some s) = PriceOf (price v).
Proof.
  intros Hno.
  assert (selectedVariant (v :: vs) (Some s) = Some v) as H.
  { unfold selectedVariant. cbn [hasVariants].
    rewrite find_variant_none; [reflexivity|].
    intros w Hw. cbn. apply String.eqb_neq. exact (Hno w Hw). }
  split; [exact H | exact (displayed_of_selected _ _ _ H)].
Qed.

Lemma stale_id_selects_first_witness :
  displayedPrice
    [{| id := "v1"; unit := "KG"; amount := 1; price := 300; stock := 5 |};
     {| id := "v2"; unit := "KG"; amount := 2; price := 700; stock := 5 |}]
    (Some "gone")
  = PriceOf 300.
Proof.
  refine (proj2 (stale_id_selects_first
            {| id := "v1"; unit := "KG"; amount := 1; price := 300; stock := 5 |}
            [{| id := "v2"; unit := "KG"; amount := 2; price := 700; stock := 5 |}]
            "gone" _)).
  intros w [<- | [<- | []]]; cbn; discriminate.
Defined.

End Selection.

(** ** What the card offers *)

Section Card.
Import JS Images ProductCard ProductCardView.

(** X18: the card shows "price not available" exactly for a product
    without variants. *)
Theorem not_available_iff_no_variants (vs : list ProductVariant)
    (sel : option string) :
  displayedPrice vs sel = PriceNotAvailable ↔ vs = [].
Proof.
  split.
  - destruct vs as [|v vs]; [reflexivity|]. intros H. exfalso.
    destruct (selectedVariant_some v vs sel) as (w & Hw & _).
    rewrite (displayed_of_selected _ _ _ Hw) in H. discriminate.
  - intros ->. reflexivity.
Qed.

(** X19: of the add-to-cart button and the "View Details" link exactly one
    is rendered. With variants it is the add-to-cart button, whose variant
    is one of the product's and whose price is the price the card displays;
    without variants it is the "View Details" link to the product page, and
    the card shows "price not available". *)
Theorem cart_button_or_details_link (productId : string) (p : Product)
    (sel : option string) :
  (∃ c v, addToCartButton productId p sel = Some c ∧
          viewDetailsLink p = None ∧
          In v (variants p) ∧
          cart_variantId c = id v ∧ cart_price c = price v ∧
          displayedPrice (variants p) sel = PriceOf (cart_price c)) ∨
  (variants p = [] ∧
   addToCartButton productId p sel = None ∧
   viewDetailsLink p = Some ("/products/" ++ slug p) ∧
   displayedPrice (variants p) sel = PriceNotAvailable).
Proof.
  unfold addToCartButton, viewDetailsLink.
  destruct (variants p) as [|v vs] eqn:Hvs.
  - right. repeat split.
  - left. destruct (selectedVariant_some v vs sel) as (w & Hw & Hin).
    rewrite Hw. eexists. exists w. split; [reflexivity|].
    cbn. repeat split; [exact Hin|].
    exact (displayed_of_selected _ _ _ Hw).
Qed.

Lemma fold_min_attained (l : list Z) (a : Z) : In (fold_left Z.min l a) (a :: l).
Proof.
  revert a. induction l as [|x l IH]; intros a; [left; reflexivity|].
  cbn [fold_left]. destruct (IH (Z.min a x)) as [H | H].
  - rewrite <- H. destruct (Z.min_spec a x) as [[_ ->] | [_ ->]];
      [left | right; left]; reflexivity.
  - right. right. exact H.
Qed.

Lemma fold_max_attained (l : list Z) (a : Z) : In (fold_left Z.max l a) (a :: l).
Proof.
  revert a. induction l as [|x l IH]; intros a; [left; reflexivity|].
  cbn [fold_left]. destruct (IH (Z.max a x)) as [H | H].
  - rewrite <- H. destruct (Z.max_spec a x) as [[_ ->] | [_ ->]];
      [right; left | left]; reflexivity.
  - right. right. exact H.
Qed.

(** X20: for a product with variants, [minPrice] and [maxPrice] are prices
    of variants of the product, and every variant's price lies between
    them. *)
Theorem price_bounds (v : ProductVariant) (vs : list ProductVariant) :
  (∃ lo hi, In lo (v :: vs) ∧ In hi (v :: vs) ∧
            price lo = minPrice (v :: vs) ∧ price hi = maxPrice (v :: vs)) ∧
  (∀ w, In w (v :: vs) →
        (minPrice (v :: vs) <= price w <= maxPrice (v :: vs))%Z).
Proof.
  split.
  - pose proof (fold_min_attained (map price vs) (price v)) as Hlo.
    pose proof (fold_max_attained (map price vs) (price v)) as Hhi.
    change (price v :: map price vs) with (map price (v :: vs)) in Hlo, Hhi.
    apply in_map_iff in Hlo. destruct Hlo as (lo & Hlo & Hinlo).
    apply in_map_iff in Hhi. destruct Hhi as (hi & Hhi & Hinhi).
    exists lo, hi. repeat split; assumption.
  - intros w [<- | Hw]; unfold minPrice, maxPrice.
    + split; [apply fold_min_le_init | apply fold_max_ge_init].
    + assert (In (price w) (map price vs)) as Hp by (apply in_map; exact Hw).
      split; [apply fold_min_le_elem | apply fold_max_ge_elem]; exact Hp.
Qed.

(** X21: the image source of a card is never the empty string: it is the
    product's first image when there is one and it is not empty, and the
    placeholder otherwise. *)
Theorem image_source_never_empty (p : Product) :
  truthy (imageUrl p) = true ∧
  ((images p !! 0%nat = Some (imageUrl p)) ∨
   (imageUrl p = "/placeholder-product.jpg" ∧
    (images p = [] ∨ images p !! 0%nat = Some ""))).
Proof.
  unfold imageUrl. destruct (images p) as [|x l]; cbn.
  - split; [reflexivity|]. right. split; [reflexivity | left; reflexivity].
  - destruct x as [|c x]; cbn.
    + split; [reflexivity|]. right. split; [reflexivity | right; reflexivity].
    + split; [reflexivity|]. left. reflexivity.
Qed.

End Card.

(** ** The variant buttons *)

Section Buttons.
Import JS Images ProductCard ProductCardView.

Lemma button_ids (sel : option ProductVariant) (vs : list ProductVariant) :
  map button_id
    (map (λ v, {| button_id := id v; highlighted := is_highlighted sel v |}) vs)
  = map id vs.
Proof. induction vs as [|v vs IH]; [reflexivity|]. cbn. rewrite IH. reflexivity. Qed.

Lemma highlighted_ids (sel : option ProductVariant) (vs : list ProductVariant) :
  map button_id
    (List.filter highlighted
       (map (λ v, {| button_id := id v; highlighted := is_highlighted sel v |})
            vs))
  = map id (List.filter (is_highlighted sel) vs).
Proof.
  induction vs as [|v vs IH]; [reflexivity|].
  cbn. destruct (is_highlighted sel v); cbn; rewrite IH; reflexivity.
Qed.

Lemma no_other_highlighted (w : ProductVariant) (vs : list ProductVariant) :
  ¬ In (id w) (map id vs) → List.filter (is_highlighted (Some w)) vs = [].
Proof.
  induction vs as [|v vs IH]; intros Hno; [reflexivity|].
  cbn. destruct (String.eqb_spec (id w) (id v)) as [Heq | _].
  - exfalso. apply Hno. left. symmetry. exact Heq.
  - apply IH. intros Hin. apply Hno. right. exact Hin.
Qed.

Lemma one_id_highlighted (w : ProductVariant) (vs : list ProductVariant) :
  NoDup (map id vs) → In w vs →
  map id (List.filter (is_highlighted (Some w)) vs) = [id w].
Proof.
  induction vs as [|v vs IH]; intros Hnd Hin; [destruct Hin|].
  cbn in Hnd. apply NoDup_cons in Hnd as [Hv Hnd].
  cbn. destruct (String.eqb_spec (id w) (id v)) as [Heq | Hne].
  - cbn. rewrite no_other_highlighted; [rewrite Heq; reflexivity|].
    intros Hin'. apply Hv. rewrite <- Heq. apply list_elem_of_In. exact Hin'.
  - destruct Hin as [-> | Hin]; [congruence|]. exact (IH Hnd Hin).
Qed.

(** X22: for a product with more than one variant and pairwise distinct
    variant ids there is one button per variant, in the variants' order,
    and exactly one of them is highlighted: the button of the selected
    variant. *)
Theorem one_button_highlighted (vs : list ProductVariant)
    (sel : option string) :
  1 < length vs →
  NoDup (map id vs) →
  map button_id (variantButtons vs sel) = map id vs ∧
  ∃ w, selectedVariant vs sel = Some w ∧
       map button_id (List.filter highlighted (variantButtons vs sel))
       = [id w].
Proof.
  intros Hlen Hnd. destruct vs as [|v vs]; [cbn in Hlen; lia|].
  unfold variantButtons. cbn [hasVariants andb].
  destruct (Nat.ltb_spec 1 (length (v :: vs))) as [_ | Hge]; [|lia].
  split; [apply button_ids|].
  destruct (selectedVariant_some v vs sel) as (w & Hw & Hin).
  exists w. split; [exact Hw|]. rewrite Hw, highlighted_ids.
  exact (one_id_highlighted w (v :: vs) Hnd Hin).
Qed.

Lemma one_button_highlighted_witness :
  map button_id
    (variantButtons
       [{| id := "v1"; unit := "KG"; amount := 1; price := 300; stock := 5 |};
        {| id := "v2"; unit := "KG"; amount := 2; price := 700; stock := 5 |}]
       (Some "v2"))
  = ["v1"; "v2"].
Proof.
  refine (proj1 (one_button_highlighted
            [{| id := "v1"; unit := "KG"; amount := 1; price := 300; stock := 5 |};
             {| id := "v2"; unit := "KG"; amount := 2; price := 700; stock := 5 |}]
            (Some "v2") _ _)).
  - cbn. lia.
  - exact example_ids_distinct.
Defined.

End Buttons.

(** ** The pattern test and the flags it guards *)

Section Pattern.
Import JS Net Images ImageManager.

Lemma includes_at_start (s p : string) :
  startsWith s p = true → includes s p = true.
Proof. intros H. destruct s; cbn [includes]; rewrite H; reflexivity. Qed.

Lemma includes_app (a p b : string) : includes (a ++ p ++ b) p = true.
Proof.
  induction a as [|c a IH].
  - change (includes (p ++ b) p = true).
    apply includes_at_start. exact (startsWith_app p b).
  - change (includes (String c (a ++ p ++ b)) p = true).
    cbn [includes]. rewrite IH. apply orb_true_r.
Qed.

Lemma includes_split (s p : string) :
  includes s p = true → ∃ a b, s = a ++ p ++ b.
Proof.
  induction s as [|c s IH]; cbn [includes]; intros H.
  - rewrite orb_false_r in H. destruct (startsWith_split _ _ H) as [t Ht].
    exists "", t. exact Ht.
  - apply orb_prop in H. destruct H as [H | H].
    + destruct (startsWith_split _ _ H) as [t Ht]. exists "", t. exact Ht.
    + destruct (IH H) as (a & b & ->). exists (String c a), b. reflexivity.
Qed.

(** X23: a reference is treated as an object-storage reference exactly when
    [.s3.] or [amazonaws.com] occurs somewhere in it, be it in the host, the
    path or the query. *)
Theorem isS3Url_iff_occurs (s : string) :
  isS3Url s = true ↔
  ∃ a b, s = a ++ ".s3." ++ b ∨ s = a ++ "amazonaws.com" ++ b.
Proof.
  unfold isS3Url. split.
  - intros H. apply orb_prop in H. destruct H as [H | H];
      destruct (includes_split _ _ H) as (a & b & Hs); exists a, b;
      [left | right]; exact Hs.
  - intros (a & b & [-> | ->]).
    + rewrite includes_app. reflexivity.
    + rewrite includes_app. apply orb_true_r.
Qed.

(** X24: the loading and error flags are reset only by the branch of the
    effect that signs: a preview that shows the loading box or the failed
    box and is given a reference outside object storage issues no request
    and goes on showing the box instead of the new reference. *)
Theorem box_kept_for_local_reference (p : Preview) (s' : string) :
  render p = LoadingBox ∨ render p = FailedBox →
  isS3Url s' = false →
  ∃ q, step p (Rerender s') = Some q ∧
       src q = s' ∧ render q = render p ∧ issued q = issued p.
Proof.
  intros Hbox Hs. cbn. destruct (String.eqb_spec s' (src p)) as [-> | Hne].
  - exists p. repeat split.
  - unfold run_effect. cbn. rewrite Hs. eexists. split; [reflexivity|].
    cbn. split; [reflexivity|]. split; [|reflexivity].
    unfold render in *. cbn.
    destruct (loading p); [reflexivity|].
    destruct (error p); [reflexivity|].
    destruct Hbox as [Hbox | Hbox]; destruct (isS3Url (src p)); discriminate.
Qed.

Lemma box_kept_for_local_reference_witness :
  ∃ q, step {| src := "https://bucket.s3.amazonaws.com/x.jpg";
               signedUrl := "https://bucket.s3.amazonaws.com/x.jpg";
               loading := false; error := true; pending := [];
               issued := ["https://bucket.s3.amazonaws.com/x.jpg"] |}
         (Rerender "/uploads/a.jpg") = Some q ∧
       src q = "/uploads/a.jpg" ∧ render q = FailedBox.
Proof.
  destruct (box_kept_for_local_reference
              {| src := "https://bucket.s3.amazonaws.com/x.jpg";
                 signedUrl := "https://bucket.s3.amazonaws.com/x.jpg";
                 loading := false; error := true; pending := [];
                 issued := ["https://bucket.s3.amazonaws.com/x.jpg"] |}
              "/uploads/a.jpg" (or_intror eq_refl) eq_refl)
    as (q & H1 & H2 & H3 & _).
  exists q. repeat split; assumption.
Defined.

End Pattern.

(** ** The previews on the page and the requests they answer to *)

Section Page.
Import JS Net Images ImageManager ImageManagerView ImageManagerPage.

Lemma take_request_In (url : string) (l rest : list string) :
  take_request url l = Some rest → In url l.
Proof.
  revert rest. induction l as [|x l IH]; intros rest H; [discriminate|].
  cbn in H. destruct (String.eqb_spec x url) as [-> | _].
  - left. reflexivity.
  - destruct (take_request url l) as [r|]; [|discriminate].
    right. exact (IH r eq_refl).
Qed.

(** The handlers of a settled request touch neither the reference nor the
    lists of requests. *)
Lemma settle_fields (fr : FetchResult) (p : Preview) :
  src (settle fr p) = src p ∧ issued (settle fr p) = issued p ∧
  pending (settle fr p) = pending p.
Proof.
  unfold settle, sign_failed.
  destruct fr as [|r]; [repeat split|].
  destruct (body r) as [|[|d]]; [repeat split..|].
  destruct (j_signedUrl d) as [u|]; [|repeat split].
  destruct (truthy u); repeat split.
Qed.

Lemma step_settled (p q : Preview) (url : string) (fr : FetchResult) :
  step p (Settled url fr) = Some q →
  In url (pending p) ∧ src q = src p ∧ issued q = issued p ∧
  (∀ u, In u (pending q) → In u (pending p)).
Proof.
  cbn. destruct (take_request url (pending p)) as [rest|] eqn:Ht;
    [|discriminate].
  intros H. injection H as <-.
  match goal with
  | |- context [settle fr ?x] => destruct (settle_fields fr x) as (-> & -> & ->)
  end.
  cbn. split; [exact (take_request_In _ _ _ Ht)|].
  split; [reflexivity|]. split; [reflexivity|].
  exact (proj1 (take_request_sub _ _ _ Ht)).
Qed.

Lemma Forall_In_eq (s : string) (l : list string) :
  Forall (λ u, u = s) l ↔ (∀ u, In u l → u = s).
Proof.
  induction l as [|x l IH]; split.
  - intros _ u [].
  - intros _. constructor.
  - intros H u [<- | Hu]; inversion H; subst; [reflexivity|].
    apply IH; assumption.
  - intros H. constructor; [apply H; left; reflexivity|].
    apply IH. intros u Hu. apply H. right. exact Hu.
Qed.

Lemma find_mounted_In (k : string) (page : list Mounted) (m : Mounted) :
  find_mounted k page = Some m → In m page ∧ m_key m = k.
Proof.
  induction page as [|x page IH]; [discriminate|].
  cbn. destruct (String.eqb_spec (m_key x) k) as [Hk | _]; intros H.
  - injection H as <-. split; [left; reflexivity | exact Hk].
  - destruct (IH H) as [Hin Hkey]. split; [right; exact Hin | exact Hkey].
Qed.

Lemma mount_holds_own_reference (k s : string) (i : nat) :
  k = preview_key s i →
  holds_own_reference {| m_key := k; m_preview := mount s; m_answered := [] |}.
Proof.
  intros ->. unfold holds_own_reference, mount, run_effect. cbn.
  destruct (isS3Url s); cbn; (split; [exists i; reflexivity|]);
    repeat split; repeat constructor.
Qed.

(** A cell of a new render either keeps a preview that holds the cell's
    reference already, untouched, or gets a preview mounted on it. *)
Lemma reconcile_keeps_or_mounts (page : list Mounted) (c : Cell) :
  (∀ m, In m page → holds_own_reference m) →
  cell_key c = preview_key (cell_src c) (cell_remove c) →
  reconcile page c
  = {| m_key := cell_key c; m_preview := mount (cell_src c);
       m_answered := [] |} ∨
  ∃ m, In m page ∧ m_key m = cell_key c ∧
       src (m_preview m) = cell_src c ∧
       reconcile page c = m.
Proof.
  intros Hpage Hkey. unfold reconcile.
  destruct (find_mounted (cell_key c) page) as [m|] eqn:Hf;
    [|left; reflexivity].
  right. destruct (find_mounted_In _ _ _ Hf) as [Hin Hk].
  destruct (Hpage m Hin) as ((i & Hmk) & _).
  assert (src (m_preview m) = cell_src c) as Hsrc.
  { rewrite Hk, Hkey in Hmk. apply preview_key_inj in Hmk.
    symmetry. exact (proj1 Hmk). }
  exists m. split; [exact Hin|]. split; [exact Hk|]. split; [exact Hsrc|].
  cbn. rewrite Hsrc, String.eqb_refl, <- Hk. destruct m. reflexivity.
Qed.

Lemma render_page_invariant (page : list Mounted) (images : list string) :
  (∀ m, In m page → holds_own_reference m) →
  ∀ m, In m (render_page page images) → holds_own_reference m.
Proof.
  intros Hpage m Hm. unfold render_page in Hm.
  apply in_map_iff in Hm. destruct Hm as (c & <- & Hc).
  destruct (grid_from_cells 0 images c Hc) as [_ Hkey].
  destruct (reconcile_keeps_or_mounts page c Hpage Hkey)
    as [-> | (m & Hin & _ & _ & ->)].
  - exact (mount_holds_own_reference _ _ _ Hkey).
  - exact (Hpage m Hin).
Qed.

Lemma settle_at_invariant (url : string) (fr : FetchResult) (m : Mounted) :
  holds_own_reference m → holds_own_reference (settle_at url fr m).
Proof.
  intros Hm. unfold settle_at.
  destruct (step (m_preview m) (Settled url fr)) as [q|] eqn:Hstep;
    [|exact Hm].
  destruct (step_settled _ _ _ _ Hstep) as (Hurl & Hsrc & Hiss & Hpend).
  destruct Hm as ((i & Hk) & Hi & Hp & Ha).
  unfold holds_own_reference. cbn. rewrite Hsrc, Hiss.
  split; [exists i; exact Hk|]. split; [exact Hi|].
  pose proof (proj1 (Forall_In_eq _ _) Hp) as Hp'.
  split.
  - apply Forall_In_eq. intros u Hu. exact (Hp' u (Hpend u Hu)).
  - apply Forall_app. split; [exact Ha|].
    constructor; [exact (Hp' url Hurl) | constructor].
Qed.

Lemma img_error_at_invariant (m : Mounted) :
  holds_own_reference m → holds_own_reference (img_error_at m).
Proof.
  intros Hm. unfold img_error_at. cbn.
  destruct (render (m_preview m)); exact Hm.
Qed.

Lemma update_mounted_invariant (k : string) (f : Mounted → Mounted)
    (page : list Mounted) :
  (∀ m, holds_own_reference m → holds_own_reference (f m)) →
  (∀ m, In m page → holds_own_reference m) →
  ∀ m, In m (update_mounted k f page) → holds_own_reference m.
Proof.
  intros Hf. induction page as [|x page IH]; intros Hpage m Hm;
    [destruct Hm|].
  cbn in Hm. destruct (String.eqb (m_key x) k).
  - destruct Hm as [<- | Hm].
    + apply Hf. apply Hpage. left. reflexivity.
    + apply Hpage. right. exact Hm.
  - destruct Hm as [<- | Hm].
    + apply Hpage. left. reflexivity.
    + apply IH; [|exact Hm]. intros y Hy. apply Hpage. right. exact Hy.
Qed.

Lemma page_step_invariant (page : list Mounted) (e : PageEvent) :
  (∀ m, In m page → holds_own_reference m) →
  ∀ m, In m (page_step page e) → holds_own_reference m.
Proof.
  intros Hpage. destruct e as [images | k url fr | k]; cbn.
  - apply render_page_invariant. exact Hpage.
  - apply update_mounted_invariant; [|exact Hpage].
    intros m. apply settle_at_invariant.
  - apply update_mounted_invariant; [|exact Hpage].
    intros m. apply img_error_at_invariant.
Qed.

Lemma page_run_invariant (es : list PageEvent) (page : list Mounted) :
  (∀ m, In m page → holds_own_reference m) →
  ∀ m, In m (page_run page es) → holds_own_reference m.
Proof.
  revert page. induction es as [|e es IH]; intros page Hpage; [exact Hpage|].
  cbn. apply IH. apply page_step_invariant. exact Hpage.
Qed.

End Page.

Section PageClaims.
Import JS Net Images ImageManager ImageManagerView ImageManagerPage.

(** The list entry changes from [a.jpg] to [b.jpg] while the request for
    [a.jpg] is in flight: the preview of [a.jpg] is unmounted with its key,
    [b.jpg] gets a preview of its own, and the answer for [a.jpg], arriving
    last, finds no preview to be applied to. *)
Lemma late_answer_dropped :
  page_run []
    [Render ["https://shop.s3.amazonaws.com/a.jpg"];
     Render ["https://shop.s3.amazonaws.com/b.jpg"];
     SettledAt "https://shop.s3.amazonaws.com/b.jpg-0"
       "https://shop.s3.amazonaws.com/b.jpg"
       (signed_response "https://signed.example/b.jpg?sig=2");
     SettledAt "https://shop.s3.amazonaws.com/a.jpg-0"
       "https://shop.s3.amazonaws.com/a.jpg"
       (signed_response "https://signed.example/a.jpg?sig=1")]
  = [{| m_key := "https://shop.s3.amazonaws.com/b.jpg-0";
        m_preview :=
          {| src := "https://shop.s3.amazonaws.com/b.jpg";
             signedUrl := "https://signed.example/b.jpg?sig=2";
             loading := false; error := false; pending := [];
             issued := ["https://shop.s3.amazonaws.com/b.jpg"] |};
        m_answered := ["https://shop.s3.amazonaws.com/b.jpg"] |}].
Proof. vm_compute. reflexivity. Qed.

(** C2: on the page, whatever lists the grid is rendered with and whatever
    comes back and in whatever order, every mounted preview has only ever
    dealt with the reference it holds: its key is built from that
    reference, and the signing requests it has issued, those in flight and
    those whose results have been applied to its state were all issued for
    that reference; a result that can be applied to it answers a request
    for the held reference and leaves the reference as it is. A preview's
    reference never changes: in the next render a cell either keeps a
    preview that holds the cell's reference already, or gets a preview
    mounted on it, so the result of a request issued for another reference
    is never applied. *)
Theorem stale_result_never_applied (es : list PageEvent) (m : Mounted) :
  In m (page_run [] es) →
  holds_own_reference m ∧
  (∀ url fr q,
     step (m_preview m) (Settled url fr) = Some q →
     url = src (m_preview m) ∧ src q = src (m_preview m)) ∧
  (∀ images c,
     In c (grid images) →
     reconcile (page_run [] es) c
     = {| m_key := cell_key c; m_preview := mount (cell_src c);
          m_answered := [] |} ∨
     ∃ m', In m' (page_run [] es) ∧ src (m_preview m') = cell_src c ∧
           reconcile (page_run [] es) c = m').
Proof.
  intros Hm.
  assert (∀ x, In x (page_run [] es) → holds_own_reference x) as Hpage.
  { apply page_run_invariant. intros x []. }
  split; [exact (Hpage m Hm)|]. split.
  - intros url fr q Hstep.
    destruct (step_settled _ _ _ _ Hstep) as (Hurl & Hsrc & _ & _).
    destruct (Hpage m Hm) as (_ & _ & Hp & _).
    split; [exact (proj1 (Forall_In_eq _ _) Hp url Hurl) | exact Hsrc].
  - intros images c Hc.
    destruct (grid_from_cells 0 images c Hc) as [_ Hkey].
    destruct (reconcile_keeps_or_mounts _ c Hpage Hkey)
      as [H | (m' & Hin & _ & Hsrc & H)].
    + left. exact H.
    + right. exists m'. repeat split; assumption.
Qed.

Lemma stale_result_never_applied_witness :
  Forall (λ u, u = "https://shop.s3.amazonaws.com/b.jpg")
    ["https://shop.s3.amazonaws.com/b.jpg"].
Proof.
  exact (proj2 (proj2 (proj2 (proj1
    (stale_result_never_applied
       [Render ["https://shop.s3.amazonaws.com/a.jpg"];
        Render ["https://shop.s3.amazonaws.com/b.jpg"];
        SettledAt "https://shop.s3.amazonaws.com/b.jpg-0"
          "https://shop.s3.amazonaws.com/b.jpg"
          (signed_response "https://signed.example/b.jpg?sig=2");
        SettledAt "https://shop.s3.amazonaws.com/a.jpg-0"
          "https://shop.s3.amazonaws.com/a.jpg"
          (signed_response "https://signed.example/a.jpg?sig=1")]
       {| m_key := "https://shop.s3.amazonaws.com/b.jpg-0";
          m_preview :=
            {| src := "https://shop.s3.amazonaws.com/b.jpg";
               signedUrl := "https://signed.example/b.jpg?sig=2";
               loading := false; error := false; pending := [];
               issued := ["https://shop.s3.amazonaws.com/b.jpg"] |};
          m_answered := ["https://shop.s3.amazonaws.com/b.jpg"] |}
       (or_introl eq_refl)))))).
Defined.

End PageClaims.
